(** * LazyLinkfield: a shallow embedding of the lazy-link field

    The class [LazyLinkfield] of openapi-designer proxies a whole field to a
    clone of another field of the tree.  The clone (the [child]) is created
    when the field becomes visible and dropped when it disappears; while there
    is no child, an assigned value waits in [cachedValue].

    The class mutates JavaScript objects that reference one another
    ([child.parent] is the lazy link, an override path may lead anywhere in
    the tree), so the embedding keeps every object in one store and every
    method is a state transformer over that store.  The methods of the base
    class [Field] and of the other field classes are not part of the file
    under study: they are taken as an interface, [Externals]. *)

From Stdlib Require Import String Ascii List ZArith NArith Bool.
From Stdlib Require Import DecimalString Sorted Permutation.
From stdpp Require Import base option list gmap.
Import ListNotations.
Local Open Scope string_scope.

(** ** Values and objects *)

Abbreviation loc := nat (only parsing).

(** JavaScript values.  Numbers are restricted to integers: no claim below
    looks inside a number, only at whether it is zero. *)
Inductive value : Type :=
  | VUndef
  | VNull
  | VBool (b : bool)
  | VNum (n : Z)
  | VStr (s : string)
  | VRef (l : loc).

(** An object is the list of its own data properties, in the order in which
    they were created.  What an object inherits from its class (methods,
    accessors such as [get i18nPath()]) is not a property of the store. *)
Abbreviation object := (list (string * value)) (only parsing).

Abbreviation heap := (gmap nat (list (string * value))) (only parsing).

(** [if (v)]: ToBoolean. *)
Definition truthy (v : value) : bool :=
  match v with
  | VUndef | VNull => false
  | VBool b => b
  | VNum n => negb (Z.eqb n 0)
  | VStr s => negb (String.eqb s "")
  | VRef _ => true
  end.

(** [v === undefined] *)
Definition is_undef (v : value) : bool :=
  match v with VUndef => true | _ => false end.

(** [v === null] *)
Definition is_null (v : value) : bool :=
  match v with VNull => true | _ => false end.

(** [a || b], on values that are already computed. *)
Definition js_or (a b : value) : value := if truthy a then a else b.

(** *** Own properties of one object *)

Fixpoint assoc (k : string) (o : object) : option value :=
  match o with
  | [] => None
  | (k', v) :: o' => if String.eqb k' k then Some v else assoc k o'
  end.

(** [o[k] = v]: an existing key keeps its place, a new key goes last. *)
Fixpoint obj_set (k : string) (v : value) (o : object) : object :=
  match o with
  | [] => [(k, v)]
  | (k', v') :: o' =>
      if String.eqb k' k then (k, v) :: o' else (k', v') :: obj_set k v o'
  end.

(** [delete o[k]] *)
Fixpoint obj_del (k : string) (o : object) : object :=
  match o with
  | [] => []
  | (k', v') :: o' =>
      if String.eqb k' k then obj_del k o' else (k', v') :: obj_del k o'
  end.

(** *** The store *)

Definition props (h : heap) (l : loc) : object := default [] (h !! l).

(** [l.k] for an object [l]; a missing property reads as [undefined]. *)
Definition getField (h : heap) (l : loc) (k : string) : value :=
  default VUndef (assoc k (props h l)).

Definition setField (h : heap) (l : loc) (k : string) (v : value) : heap :=
  <[l := obj_set k v (props h l)]> h.

Definition delField (h : heap) (l : loc) (k : string) : heap :=
  <[l := obj_del k (props h l)]> h.

(** *** Array indices and strings *)

Definition digit_of (c : ascii) : option N :=
  let n := N_of_ascii c in
  if (48 <=? n)%N && (n <=? 57)%N then Some (n - 48)%N else None.

Fixpoint digits_value (s : string) (acc : N) : option N :=
  match s with
  | EmptyString => Some acc
  | String c s' =>
      match digit_of c with
      | Some d => digits_value s' (acc * 10 + d)%N
      | None => None
      end
  end.

(** The array index a property key stands for, if any: the key is the
    decimal form, without leading zeros, of an integer from 0 to
    2^32 - 2. *)
Definition array_index (k : string) : option N :=
  match k with
  | EmptyString => None
  | String c rest =>
      if Ascii.eqb c "0" && negb (String.eqb rest "") then None
      else match digits_value k 0 with
           | Some n => if (n <? 4294967295)%N then Some n else None
           | None => None
           end
  end.

(** The decimal form of an index. *)
Definition index_name (i : nat) : string :=
  NilZero.string_of_uint (Nat.to_uint i).

(** The own properties of a string: [length] and one character per
    index. *)
Definition string_prop (s : string) (k : string) : option value :=
  if String.eqb k "length" then Some (VNum (Z.of_nat (String.length s)))
  else match array_index k with
       | Some i =>
           match String.get (N.to_nat i) s with
           | Some c => Some (VStr (String c EmptyString))
           | None => None
           end
       | None => None
       end.

Fixpoint string_entries (i : nat) (s : string) : object :=
  match s with
  | EmptyString => []
  | String c s' =>
      (index_name i, VStr (String c EmptyString)) :: string_entries (S i) s'
  end.

(** *** The order of enumeration *)

Definition is_index (e : string * value) : bool :=
  match array_index (fst e) with Some _ => true | None => false end.

Definition index_of (e : string * value) : N :=
  default 0%N (array_index (fst e)).

Fixpoint insert_by_index (e : string * value) (es : object) : object :=
  match es with
  | [] => [e]
  | e' :: es' =>
      if (index_of e <=? index_of e')%N then e :: es
      else e' :: insert_by_index e es'
  end.

Definition sort_by_index (es : object) : object :=
  fold_right insert_by_index [] es.

(** The own properties in the order of [OrdinaryOwnPropertyKeys]: the array
    indices in ascending order, then the other keys in the order of their
    creation. *)
Definition own_entries (o : object) : object :=
  (sort_by_index (List.filter is_index o)
   ++ List.filter (fun e => negb (is_index e)) o)%list.

(** [x[k]] for any value [x].  Reading a property of [undefined] or [null]
    is a TypeError ([None]).  A string has [length] and its characters;
    numbers and booleans have no own properties.  Inherited properties and
    accessors are outside the store, so they read as [undefined]. *)
Definition getProp (h : heap) (x : value) (k : string) : option value :=
  match x with
  | VRef l => Some (getField h l k)
  | VUndef | VNull => None
  | VStr s => Some (default VUndef (string_prop s k))
  | VBool _ | VNum _ => Some VUndef
  end.

(** [x.hasOwnProperty(k)] *)
Definition hasOwn (h : heap) (x : value) (k : string) : option bool :=
  match x with
  | VRef l => Some (bool_decide (is_Some (assoc k (props h l))))
  | VUndef | VNull => None
  | VStr s => Some (bool_decide (is_Some (string_prop s k)))
  | VBool _ | VNum _ => Some false
  end.

(** [Object.entries(x)] *)
Definition Object_entries (h : heap) (x : value) : option object :=
  match x with
  | VRef l => Some (own_entries (props h l))
  | VUndef | VNull => None
  | VStr s => Some (string_entries 0 s)
  | VBool _ | VNum _ => Some []
  end.

(** ** Computations: a store and exceptions

    A method either returns a result and the new store, or throws; in both
    cases the writes made so far stay. *)

Inductive outcome (A : Type) : Type :=
  | Ret (a : A) (h : heap)
  | Throw (h : heap).
Arguments Ret {A} a h.
Arguments Throw {A} h.

Definition M (A : Type) : Type := heap -> outcome A.

Definition ret {A} (a : A) : M A := fun h => Ret a h.
Definition throw {A} : M A := fun h => Throw h.
Definition bind {A B} (m : M A) (k : A -> M B) : M B :=
  fun h => match m h with
           | Ret a h' => k a h'
           | Throw h' => Throw h'
           end.

Notation "'let!' x ':=' m 'in' k" := (bind m (fun x => k))
  (at level 10, x pattern, m at level 100, k at level 200).
Notation "'do!' m 'in' k" := (bind m (fun _ => k))
  (at level 10, m at level 100, k at level 200).

(** A read that may fail with a TypeError. *)
Definition try_read {A} (f : heap -> option A) : M A :=
  fun h => match f h with Some a => Ret a h | None => Throw h end.

Definition read {A} (f : heap -> A) : M A := fun h => Ret (f h) h.

(** [new Object] with the given properties. *)
Definition alloc (o : object) : M loc :=
  fun h => let l := fresh (dom h) in Ret l (<[l := o]> h).

(** [x[k] = v], in strict mode (class bodies are strict): assigning to a
    property of a primitive throws, as it does for [undefined] and [null]. *)
Definition setProp (x : value) (k : string) (v : value) : M unit :=
  match x with
  | VRef l => fun h => Ret tt (setField h l k v)
  | _ => throw
  end.

(** [delete x[k]], in strict mode: the own properties of a string cannot be
    deleted (a TypeError); on the other primitives, and for the other keys
    of a string, there is nothing to delete. *)
Definition delProp (x : value) (k : string) : M unit :=
  match x with
  | VRef l => fun h => Ret tt (delField h l k)
  | VUndef | VNull => throw
  | VStr s => if bool_decide (is_Some (string_prop s k)) then throw else ret tt
  | VBool _ | VNum _ => ret tt
  end.

(** [x.m(...)]: only objects have the methods of a field. *)
Definition invoke {A} (x : value) (m : loc -> M A) : M A :=
  match x with
  | VRef l => m l
  | _ => throw
  end.

(** [for (const e of es) body(e)] over a snapshot [es]. *)
Fixpoint for_of {A} (es : list A) (body : A -> M unit) : M unit :=
  match es with
  | [] => ret tt
  | e :: es' => do! body e in for_of es' body
  end.

(** ** Strings *)

(** [s.includes(c)] for a one-character [c] *)
Fixpoint includes (c : ascii) (s : string) : bool :=
  match s with
  | EmptyString => false
  | String a s' => if Ascii.eqb a c then true else includes c s'
  end.

(** [s.split(c)] for a one-character separator: never empty. *)
Fixpoint split (c : ascii) (s : string) : list string :=
  match s with
  | EmptyString => [EmptyString]
  | String a s' =>
      if Ascii.eqb a c then EmptyString :: split c s'
      else match split c s' with
           | [] => [String a EmptyString]
           | w :: ws => String a w :: ws
           end
  end.

(** [path.splice(-1)[0]]: the last entry, which [splice] removes from
    [path]; on an empty array the result is [undefined], which as a property
    key reads ["undefined"]. *)
Definition splice_last (path : list string) : string * list string :=
  (List.last path "undefined", List.removelast path).

(** [path[0] === s]; [path[0]] of an empty array is [undefined], which is
    no string. *)
Definition head_is (path : list string) (s : string) : bool :=
  match path with
  | p0 :: _ => String.eqb p0 s
  | [] => false
  end.

(** [path.splice(1)]: the entries after the first. *)
Definition splice_1 (path : list string) : list string := tl path.

(** ** The interface of the surrounding field classes

    [LazyLinkfield extends Field].  The inherited methods it calls through
    [super] or on [this], and the methods it calls on other nodes of the tree
    (the link target, the clone, nodes found by [resolveRef]), belong to
    classes outside the file.  Each one is a computation on the store; the
    first argument is the receiver. *)
Record Externals : Type := {
  (** [super.init(id, args)] *)
  super_init : loc -> value -> value -> M value;
  (** [super.revalidate(errorCollection)] *)
  super_revalidate : loc -> value -> M value;
  (** [super.shouldDisplay()] *)
  super_shouldDisplay : loc -> M value;
  (** [super.resolvePath(path)] *)
  super_resolvePath : loc -> list string -> M value;
  (** [this.onSetValue(value)] *)
  call_onSetValue : loc -> value -> M unit;
  (** [x.resolveRef(path)] *)
  call_resolveRef : loc -> value -> M value;
  (** [x.clone(newParent)]: a new field object *)
  call_clone : loc -> loc -> M loc;
  (** [x.getValue()] *)
  call_getValue : loc -> M value;
  (** [x.setValue(value)] *)
  call_setValue : loc -> value -> M unit;
  (** [x.isEmpty()] *)
  call_isEmpty : loc -> M value;
  (** [x.revalidate(errorCollection)] *)
  call_revalidate : loc -> value -> M value;
  (** [x.resolvePath(path)] *)
  call_resolvePath : loc -> list string -> M value
}.

(** ** The class *)

Module LazyLinkfield.
Section Methods.

Variable E : Externals.
(** The receiver: the location of the lazy link in the store.  Its fields
    [target], [overrides], [child], [cachedValue] and the inherited
    [parent] are properties of that object. *)
Variable this : loc.

Definition get_this (k : string) : M value :=
  read (fun h => getField h this k).

Definition set_this (k : string) (v : value) : M unit :=
  fun h => Ret tt (setField h this k v).

(** [init(id = '', args = {})] *)
Definition init (id args : value) : M value :=
  let id := if is_undef id then VStr "" else id in
  let! args := (if is_undef args then
                  let! l := alloc [] in ret (VRef l)
                else ret args) in
  let! t := try_read (fun h => getProp h args "target") in
  do! set_this "target" (js_or t (VStr "#")) in
  let! o := try_read (fun h => getProp h args "overrides") in
  let! o := (if truthy o then ret o
             else let! l := alloc [] in ret (VRef l)) in
  do! set_this "overrides" o in
  super_init E this id args.

(** [isEmpty()] *)
Definition isEmpty : M value :=
  let! child := get_this "child" in
  if negb (truthy child) then
    let! cachedValue := get_this "cachedValue" in
    ret (VBool (negb (truthy cachedValue)))
  else invoke child (call_isEmpty E).

(** [revalidate(errorCollection)] *)
Definition revalidate (errorCollection : value) : M value :=
  let! validation := super_revalidate E this errorCollection in
  let! child := get_this "child" in
  do! (if truthy child then
         let! r := invoke child (fun c => call_revalidate E c errorCollection) in
         setProp validation "child" r
       else
         let! l := alloc [("valid", VBool true)] in
         setProp validation "child" (VRef l)) in
  let! vchild := try_read (fun h => getProp h validation "child") in
  let! own := try_read (fun h => hasOwn h vchild "childrenValid") in
  let! childrenValid :=
    (if own : bool then
       let! vchild := try_read (fun h => getProp h validation "child") in
       try_read (fun h => getProp h vchild "childrenValid")
     else
       let! vchild := try_read (fun h => getProp h validation "child") in
       try_read (fun h => getProp h vchild "valid")) in
  do! setProp validation "childrenValid" childrenValid in
  ret validation.

(** [resolveRawPath(object, path)].  [path.splice(1)] hands the entries
    after the first to the recursive call (and leaves only the first in the
    caller's array, which the caller does not use again). *)
Fixpoint resolveRawPath (h : heap) (object : value) (path : list string)
  : option value :=
  match path with
  | [] => Some object
  | p0 :: rest =>
      if String.eqb p0 "#" then resolveRawPath h object rest
      else match getProp h object p0 with
           | Some o => resolveRawPath h o rest
           | None => None
           end
  end.

(** The body of the loop of [createChild] (lines 64-81), for one entry
    [[field, value]] of [Object.entries(this.overrides)]. *)
Definition apply_override (entry : string * value) : M unit :=
  let '(field, value) := entry in
  let! tp :=
    (if includes ";" field then
       match split ";" field with
       | elementPath :: fieldPath :: _ =>
           let fieldPath := split "/" fieldPath in
           let! child := get_this "child" in
           let! target :=
             invoke child (fun c => call_resolveRef E c (VStr elementPath)) in
           ret (target, fieldPath)
       | _ => throw
       end
     else
       let fieldPath := split "/" field in
       let! child := get_this "child" in
       ret (child, fieldPath)) in
  let '(target, fieldPath) := tp in
  let '(lastFieldPathEntry, fieldPath) := splice_last fieldPath in
  let! target := try_read (fun h => resolveRawPath h target fieldPath) in
  if is_null value then delProp target lastFieldPathEntry
  else setProp target lastFieldPathEntry value.

(** [createChild()], lines 62-82: clone the target and apply the
    overrides. *)
Definition clone_and_override : M unit :=
  let! target := get_this "target" in
  let! template := call_resolveRef E this target in
  let! c := invoke template (fun t => call_clone E t this) in
  do! set_this "child" (VRef c) in
  let! overrides := get_this "overrides" in
  let! entries := try_read (fun h => Object_entries h overrides) in
  for_of entries apply_override.

(** [createChild()], lines 83-87: "Use cached value if it has been set." *)
Definition use_cachedValue : M unit :=
  let! cachedValue := get_this "cachedValue" in
  if truthy cachedValue then
    let! child := get_this "child" in
    do! invoke child (fun c => call_setValue E c cachedValue) in
    set_this "cachedValue" VUndef
  else ret tt.

(** [createChild()] *)
Definition createChild : M unit :=
  do! clone_and_override in use_cachedValue.

(** [deleteChild()] *)
Definition deleteChild : M unit := set_this "child" VUndef.

(** [this.parent && this.parent.isCollapsible && this.parent.collapsed].
    The properties of the parent are read only when the parent is truthy, so
    the reads cannot throw. *)
Definition isParentCollapsed (h : heap) : value :=
  let parent := getField h this "parent" in
  if truthy parent then
    match getProp h parent "isCollapsible" with
    | Some isCollapsible =>
        if truthy isCollapsible then
          default VUndef (getProp h parent "collapsed")
        else isCollapsible
    | None => VUndef
    end
  else parent.

(** [shouldDisplay()] *)
Definition shouldDisplay : M value :=
  let! display := super_shouldDisplay E this in
  if truthy display then
    let! collapsed := read isParentCollapsed in
    let! child := get_this "child" in
    if is_undef child && negb (truthy collapsed) then
      do! createChild in ret display
    else ret display
  else
    let! child := get_this "child" in
    if negb (is_undef child) then
      let! v := invoke child (call_getValue E) in
      do! set_this "cachedValue" v in
      do! deleteChild in
      ret display
    else ret display.

(** [setValue(value)] *)
Definition setValue (value : value) : M unit :=
  do! call_onSetValue E this value in
  let! child := get_this "child" in
  if negb (truthy child) then set_this "cachedValue" value
  else invoke child (fun c => call_setValue E c value).

(** [getValue()] *)
Definition getValue : M value :=
  let! child := get_this "child" in
  if truthy child then invoke child (call_getValue E)
  else get_this "cachedValue".

(** [resolvePath(path)] *)
Definition resolvePath (path : list string) : M value :=
  let! parentResolveResult := super_resolvePath E this path in
  if truthy parentResolveResult then ret parentResolveResult
  else
    let! child := get_this "child" in
    if truthy child && head_is path ":child" then
      invoke child (fun c => call_resolvePath E c (splice_1 path))
    else ret VUndef.

End Methods.
End LazyLinkfield.

Import LazyLinkfield.

(** ** The display key

    [get i18nPath()] reads the getter [i18nPath] of another node, which the
    classes outside the file define; it is a parameter here. *)

(** [x.i18nPath]: a TypeError on [undefined] and [null], [undefined] on the
    other primitives, the getter of the class on an object. *)
Definition read_getter (x : value) (getter : loc -> M value) : M value :=
  match x with
  | VRef l => getter l
  | VUndef | VNull => throw
  | VBool _ | VNum _ | VStr _ => ret VUndef
  end.

(** [get i18nPath()] *)
Definition i18nPath (E : Externals) (get_i18nPath : loc -> M value)
  (this : loc) : M value :=
  let! target := get_this this "target" in
  let! target := call_resolveRef E this target in
  if negb (truthy target) then
    let! parent := get_this this "parent" in
    read_getter parent get_i18nPath
  else read_getter target get_i18nPath.

(** ** The life of a lazy link *)

Section Protocol.

Variable E : Externals.
Variable this : loc.

(** The calls a host can make on the link. *)
Inductive op : Type :=
  | Init (id args : value)
  | SetValue (v : value)
  | GetValue
  | IsEmpty
  | Revalidate (errorCollection : value)
  | ShouldDisplay
  | ResolvePath (path : list string).

Definition run (o : op) : M value :=
  match o with
  | Init id args => init E this id args
  | SetValue v => do! setValue E this v in ret VUndef
  | GetValue => getValue E this
  | IsEmpty => isEmpty E this
  | Revalidate ec => revalidate E this ec
  | ShouldDisplay => shouldDisplay E this
  | ResolvePath path => resolvePath E this path
  end.

(** The link is an object of the store. *)
Definition allocated (h : heap) : Prop := is_Some (h !! this).

(** The two fields of the state machine. *)
Definition own_fields (h : heap) : value * value :=
  (getField h this "child", getField h this "cachedValue").

(** A computation of the surrounding classes that leaves the link in the
    store and does not write its [child] and [cachedValue]. *)
Definition keeps_link {A} (m : M A) : Prop :=
  forall h r h', allocated h -> m h = Ret r h' ->
    allocated h' /\ own_fields h' = own_fields h.

(** A computation that leaves the link in the store. *)
Definition keeps_allocated {A} (m : M A) : Prop :=
  forall h r h', allocated h -> m h = Ret r h' -> allocated h'.

(** The surrounding classes leave the state machine to the link, and the
    validation result of the base class is an object of its own. *)
Record well_behaved : Prop := {
  wb_init : forall id args, keeps_link (super_init E this id args);
  wb_super_revalidate : forall ec, keeps_link (super_revalidate E this ec);
  wb_validation : forall ec h r h',
    allocated h -> super_revalidate E this ec h = Ret r h' -> r <> VRef this;
  wb_shouldDisplay : keeps_link (super_shouldDisplay E this);
  wb_super_resolvePath : forall p, keeps_link (super_resolvePath E this p);
  wb_onSetValue : forall v, keeps_link (call_onSetValue E this v);
  wb_resolveRef : forall x p, keeps_link (call_resolveRef E x p);
  wb_clone : forall x p, keeps_link (call_clone E x p);
  wb_getValue : forall x, keeps_link (call_getValue E x);
  wb_setValue : forall x v, keeps_link (call_setValue E x v);
  wb_isEmpty : forall x, keeps_link (call_isEmpty E x);
  wb_revalidate : forall x ec, keeps_link (call_revalidate E x ec);
  wb_resolvePath : forall x p, keeps_link (call_resolvePath E x p)
}.

(** The states a link goes through: a new instance has neither child nor
    cached value (the field initialisers of the class); then the host calls
    its methods, which return or throw (the store a throw leaves stays), and
    between two calls the rest of the program may change the store as long
    as it leaves the two fields alone. *)
Inductive reachable : heap -> Prop :=
  | reach_new h :
      allocated h ->
      getField h this "child" = VUndef ->
      getField h this "cachedValue" = VUndef ->
      reachable h
  | reach_call h o r h' :
      reachable h -> run o h = Ret r h' -> reachable h'
  | reach_throw h o h' :
      reachable h -> run o h = Throw h' -> reachable h'
  | reach_env h h' :
      reachable h -> allocated h' -> own_fields h' = own_fields h ->
      reachable h'.

End Protocol.

(** ** Reference readings of the specification *)

(** Section 4.1: one step per segment, ['#'] stays where it is, any other
    segment steps into the property of that name. *)
Definition raw_step (h : heap) (acc : option value) (segment : string)
  : option value :=
  if String.eqb segment "#" then acc
  else match acc with
       | Some o => getProp h o segment
       | None => None
       end.

Definition resolveRawPath_fold (h : heap) (object : value)
  (pathSegments : list string) : option value :=
  fold_left (raw_step h) pathSegments (Some object).

(** Section 4.3, [revalidate]: the flag derived from the result of the
    child, its [childrenValid] if it reports one, else its [valid]. *)
Definition derived_childrenValid (h : heap) (childResult : value)
  : option value :=
  match hasOwn h childResult "childrenValid" with
  | Some true => getProp h childResult "childrenValid"
  | Some false => getProp h childResult "valid"
  | None => None
  end.

(** Section 4.2, steps 1 and 2: the scope of an override key (an element
    path before [';'], if any) and its property path. *)
Definition override_plan (field : string) : option string * list string :=
  if includes ";" field then
    (Some (nth 0 (split ";" field) ""), split "/" (nth 1 (split ";" field) ""))
  else (None, split "/" field).

(** An override spares the link when the property it writes is named
    neither [child] nor [cachedValue]. *)
Definition terminal_name (field : string) : string :=
  List.last (snd (override_plan field)) "undefined".

Definition spares_link (entry : string * value) : Prop :=
  terminal_name (fst entry) <> "child" /\
  terminal_name (fst entry) <> "cachedValue".

(** Section 4.2, step 4: [null] deletes the terminal property, any other
    value is assigned to it. *)
Definition write_terminal (container : value) (terminal : string)
  (v : value) : M unit :=
  match v with
  | VNull => delProp container terminal
  | _ => setProp container terminal v
  end.

(** Section 4.2, steps 1 to 4 for one entry. *)
Definition override_entry (E : Externals) (this : loc)
  (entry : string * value) : M unit :=
  let scope := fst (override_plan (fst entry)) in
  let path := snd (override_plan (fst entry)) in
  let terminal := List.last path "undefined" in
  let! child := get_this this "child" in
  let! root :=
    match scope with
    | Some elementPath =>
        invoke child (fun c => call_resolveRef E c (VStr elementPath))
    | None => ret child
    end in
  let! container :=
    try_read (fun h => resolveRawPath_fold h root (List.removelast path)) in
  write_terminal container terminal (snd entry).






(** ** A sample tree

    A tree of plain fields on which the class can be run: a field keeps its
    value in [value], a reference names the property of the receiver that
    holds the node, a clone is a copy with a new [parent], visibility is the
    flag [display], and a field reports the validation result stored in
    [validation]. *)
Module Sample.

(** Modelled from the spec: the base class [Field] and the classes of the
    other nodes of the tree, which are outside the file under study.  This
    instance of the interface follows the capabilities section 3 lists for a
    field node. *)
Definition env : Externals := {|
  super_init this id args :=
    do! (fun h => Ret tt (setField h this "id" id)) in ret (VRef this);
  super_revalidate this ec :=
    let! l := alloc [("valid", VBool true)] in ret (VRef l);
  super_shouldDisplay this := read (fun h => getField h this "display");
  super_resolvePath this path :=
    match path with
    | [] => ret (VRef this)
    | _ => ret VUndef
    end;
  call_onSetValue this v := ret tt;
  call_resolveRef x p :=
    match p with
    | VStr s => read (fun h => getField h x s)
    | _ => ret VUndef
    end;
  call_clone x newParent :=
    fun h => alloc (obj_set "parent" (VRef newParent) (props h x)) h;
  call_getValue x := read (fun h => getField h x "value");
  call_setValue x v := fun h => Ret tt (setField h x "value" v);
  call_isEmpty x :=
    read (fun h => VBool (negb (truthy (getField h x "value"))));
  call_revalidate x ec := read (fun h => getField h x "validation");
  call_resolvePath x path :=
    match path with
    | [] => ret (VRef x)
    | [p] => read (fun h => getField h x p)
    | _ => ret VUndef
    end
|}.

(** Object 1 is the lazy link, object 2 its parent, object 3 the template
    the link points to, object 4 the overrides, objects 5 and 6 the nested
    properties [a] and [a.b] of the template. *)
Definition tree (display : value) (collapsed : bool)
  (overrides : list (string * value)) : heap :=
  list_to_map
    [ (1, [("target", VStr "tpl"); ("overrides", VRef 4);
           ("parent", VRef 2); ("display", display); ("tpl", VRef 3)]);
      (2, [("isCollapsible", VBool true); ("collapsed", VBool collapsed)]);
      (3, [("value", VStr "default"); ("a", VRef 5)]);
      (4, overrides);
      (5, [("b", VRef 6)]);
      (6, [("c", VNum 1)]) ].

End Sample.

(** ** A sample tree of links

    The sample tree again, but with lazy links as nodes: [revalidate] on a
    node is the [revalidate] of the class, over the sample tree. *)
Module Nested.

(** Modelled from the spec: as [Sample.env], with [LazyLinkfield] as the
    class of the nodes that are validated. *)
Definition env : Externals := {|
  super_init := super_init Sample.env;
  super_revalidate := super_revalidate Sample.env;
  super_shouldDisplay := super_shouldDisplay Sample.env;
  super_resolvePath := super_resolvePath Sample.env;
  call_onSetValue := call_onSetValue Sample.env;
  call_resolveRef := call_resolveRef Sample.env;
  call_clone := call_clone Sample.env;
  call_getValue := call_getValue Sample.env;
  call_setValue := call_setValue Sample.env;
  call_isEmpty := call_isEmpty Sample.env;
  call_revalidate x ec := revalidate Sample.env x ec;
  call_resolvePath := call_resolvePath Sample.env
|}.

(** The link 1 has the link 3 as child, whose child 5 reports the stored
    result 8. *)
Definition tree : heap :=
  <[8 := [("valid", VBool true); ("childrenValid", VBool false)]]>
    (setField
       (setField
          (setField (Sample.tree VUndef false []) 5 "validation" (VRef 8))
          3 "child" (VRef 5))
       1 "child" (VRef 3)).

End Nested.

(** * Properties *)

(** ** Objects and the store *)

Lemma assoc_obj_set_eq k v o : assoc k (obj_set k v o) = Some v.
Proof.
  induction o as [|[k' v'] o IH]; simpl.
  - now rewrite String.eqb_refl.
  - destruct (String.eqb k' k) eqn:Hk; simpl.
    + now rewrite String.eqb_refl.
    + now rewrite Hk.
Qed.

Lemma assoc_obj_set_ne k k' v o :
  k <> k' -> assoc k' (obj_set k v o) = assoc k' o.
Proof.
  intros Hne. induction o as [|[k0 v0] o IH]; simpl.
  - destruct (String.eqb_spec k k'); [contradiction | reflexivity].
  - destruct (String.eqb_spec k0 k) as [->|Hk0]; simpl.
    + destruct (String.eqb_spec k k'); [contradiction | reflexivity].
    + destruct (String.eqb_spec k0 k'); [reflexivity | exact IH].
Qed.


Lemma assoc_obj_del_ne k k' o :
  k <> k' -> assoc k' (obj_del k o) = assoc k' o.
Proof.
  intros Hne. induction o as [|[k0 v0] o IH]; simpl; [reflexivity|].
  destruct (String.eqb_spec k0 k) as [->|Hk0]; simpl.
  - destruct (String.eqb_spec k k'); [contradiction | exact IH].
  - destruct (String.eqb_spec k0 k'); [reflexivity | exact IH].
Qed.

Lemma props_setField_eq (h : heap) l k v :
  props (setField h l k v) l = obj_set k v (props h l).
Proof. unfold props at 1, setField. now rewrite lookup_insert_eq. Qed.

Lemma props_setField_ne (h : heap) l l' k v :
  l <> l' -> props (setField h l k v) l' = props h l'.
Proof.
  intros Hne. unfold props, setField. now rewrite lookup_insert_ne.
Qed.

Lemma getField_setField_eq (h : heap) l k v :
  getField (setField h l k v) l k = v.
Proof.
  unfold getField. now rewrite props_setField_eq, assoc_obj_set_eq.
Qed.

Lemma getField_setField_ne (h : heap) l k v l' k' :
  l <> l' \/ k <> k' ->
  getField (setField h l k v) l' k' = getField h l' k'.
Proof.
  intros Hne. unfold getField.
  destruct (decide (l = l')) as [<-|Hl].
  - destruct Hne as [Hne|Hne]; [contradiction|].
    now rewrite props_setField_eq, assoc_obj_set_ne.
  - now rewrite props_setField_ne.
Qed.

Lemma props_delField_eq (h : heap) l k :
  props (delField h l k) l = obj_del k (props h l).
Proof. unfold props at 1, delField. now rewrite lookup_insert_eq. Qed.


Lemma getField_delField_ne (h : heap) l k l' k' :
  l <> l' \/ k <> k' ->
  getField (delField h l k) l' k' = getField h l' k'.
Proof.
  intros Hne. unfold getField.
  destruct (decide (l = l')) as [<-|Hl].
  - destruct Hne as [Hne|Hne]; [contradiction|].
    now rewrite props_delField_eq, assoc_obj_del_ne.
  - unfold props, delField. now rewrite lookup_insert_ne.
Qed.

Lemma lookup_setField_is_Some (h : heap) l k v l' :
  is_Some (h !! l') -> is_Some (setField h l k v !! l').
Proof.
  intros Hs. unfold setField.
  destruct (decide (l = l')) as [<-|Hl].
  - rewrite lookup_insert_eq. eauto.
  - now rewrite lookup_insert_ne.
Qed.

Lemma lookup_delField_is_Some (h : heap) l k l' :
  is_Some (h !! l') -> is_Some (delField h l k !! l').
Proof.
  intros Hs. unfold delField.
  destruct (decide (l = l')) as [<-|Hl].
  - rewrite lookup_insert_eq. eauto.
  - now rewrite lookup_insert_ne.
Qed.

(** A new object never takes the place of an existing one. *)
Lemma alloc_fresh (h : heap) o l h' l' :
  alloc o h = Ret l h' -> is_Some (h !! l') ->
  l <> l' /\ h' !! l' = h !! l' /\ h' !! l = Some o.
Proof.
  unfold alloc. intros [= <- <-] Hs.
  assert (Hne : fresh (dom h) <> l').
  { intros Heq. apply (is_fresh (dom h)). rewrite Heq.
    now apply elem_of_dom. }
  split; [exact Hne|]. split.
  - now rewrite lookup_insert_ne.
  - now rewrite lookup_insert_eq.
Qed.

(** ** Strings *)

Lemma split_not_nil c s : split c s <> [].
Proof.
  destruct s as [|a s]; simpl; [discriminate|].
  destruct (Ascii.eqb a c); [discriminate|].
  destruct (split c s); discriminate.
Qed.

(** A string that contains the separator splits into two pieces at least. *)
Lemma split_includes c s :
  includes c s = true ->
  exists x y rest, split c s = x :: y :: rest.
Proof.
  induction s as [|a s IH]; simpl; [discriminate|].
  destruct (Ascii.eqb a c).
  - intros _. destruct (split c s) as [|y rest] eqn:Hs.
    + now destruct (split_not_nil c s).
    + eauto.
  - intros Hin. destruct (IH Hin) as (x & y & rest & ->). eauto.
Qed.

(** ** Path resolution in raw objects *)

Lemma fold_raw_step_None h path : fold_left (raw_step h) path None = None.
Proof.
  induction path as [|p path IH]; simpl; [reflexivity|].
  unfold raw_step at 2. now destruct (String.eqb p "#").
Qed.

Lemma resolveRawPath_fold_step h object p path :
  resolveRawPath_fold h object (p :: path) =
  if String.eqb p "#" then resolveRawPath_fold h object path
  else match getProp h object p with
       | Some o => resolveRawPath_fold h o path
       | None => None
       end.
Proof.
  unfold resolveRawPath_fold. simpl. unfold raw_step at 2.
  destruct (String.eqb p "#"); [reflexivity|].
  destruct (getProp h object p); [reflexivity|].
  apply fold_raw_step_None.
Qed.

Lemma resolveRawPath_is_fold h object path :
  resolveRawPath h object path = resolveRawPath_fold h object path.
Proof.
  revert object.
  induction path as [|p path IH]; intros object; [reflexivity|].
  rewrite resolveRawPath_fold_step. simpl.
  destruct (String.eqb p "#"); [apply IH|].
  destruct (getProp h object p); [apply IH | reflexivity].
Qed.

(** C7.  [resolveRawPath(object, pathSegments)] returns [object] for the
    empty list, skips a leading ['#'] and goes on with the same object,
    steps into [object[head]] for any other head (a TypeError when [object]
    is [undefined] or [null]), and so agrees on every object and every
    segment list with the fold that takes the segments one by one. *)
Theorem resolveRawPath_contract (h : heap) (object : value) :
  resolveRawPath h object [] = Some object /\
  (forall rest,
     resolveRawPath h object ("#" :: rest) = resolveRawPath h object rest) /\
  (forall head rest, head <> "#" ->
     resolveRawPath h object (head :: rest) =
     match getProp h object head with
     | Some next => resolveRawPath h next rest
     | None => None
     end) /\
  (forall pathSegments,
     resolveRawPath h object pathSegments =
     resolveRawPath_fold h object pathSegments).
Proof.
  split; [reflexivity|]. split; [reflexivity|]. split.
  - intros head rest Hne. simpl.
    destruct (String.eqb_spec head "#"); [contradiction | reflexivity].
  - apply resolveRawPath_is_fold.
Qed.

Lemma resolveRawPath_contract_witness :
  resolveRawPath (Sample.tree VUndef false []) (VRef 3) ["a"; "#"; "b"; "c"]
  = Some (VNum 1) /\
  resolveRawPath (Sample.tree VUndef false []) (VRef 3) ["a"; "#"; "b"; "c"]
  = match getProp (Sample.tree VUndef false []) (VRef 3) "a" with
    | Some next =>
        resolveRawPath (Sample.tree VUndef false []) next ["#"; "b"; "c"]
    | None => None
    end.
Proof.
  split; [vm_compute; reflexivity|].
  apply (proj1 (proj2 (proj2
           (resolveRawPath_contract (Sample.tree VUndef false []) (VRef 3))))).
  discriminate.
Defined.

(** ** Running a method step by step *)

Ltac unfold_M :=
  unfold bind, get_this, set_this, read, try_read, ret, throw in *.

(** ** Path delegation *)

(** C8.  [resolvePath(path)] asks the base class first.  A truthy answer is
    returned as it is.  Otherwise, with a child and [':child'] as the first
    segment, the answer is that of the child's [resolvePath] on the
    remaining segments; in every other case (no child, an empty path, a
    first segment other than [':child']) it is [undefined] and the child is
    not asked. *)
Theorem resolvePath_delegation (E : Externals) (this : loc)
  (path : list string) (h h1 : heap) (base : value) :
  super_resolvePath E this path h = Ret base h1 ->
  (truthy base = true -> resolvePath E this path h = Ret base h1) /\
  (truthy base = false ->
     (forall c rest,
        getField h1 this "child" = VRef c -> path = ":child" :: rest ->
        resolvePath E this path h = call_resolvePath E c rest h1) /\
     (truthy (getField h1 this "child") = false ->
        resolvePath E this path h = Ret VUndef h1) /\
     (path = [] -> resolvePath E this path h = Ret VUndef h1) /\
     (forall segment rest,
        path = segment :: rest -> segment <> ":child" ->
        resolvePath E this path h = Ret VUndef h1)).
Proof.
  intros Hbase. unfold resolvePath. unfold_M. rewrite Hbase.
  split; [intros ->; reflexivity|].
  intros ->. repeat split.
  - intros c rest -> ->. reflexivity.
  - intros ->. reflexivity.
  - intros ->. simpl. now rewrite andb_false_r.
  - intros segment rest -> Hne. simpl.
    destruct (String.eqb_spec segment ":child"); [contradiction|].
    now rewrite andb_false_r.
Qed.

Lemma resolvePath_delegation_witness :
  resolvePath Sample.env 1 [":child"; "value"]
    (setField (Sample.tree VUndef false []) 1 "child" (VRef 3))
  = Ret (VStr "default")
      (setField (Sample.tree VUndef false []) 1 "child" (VRef 3)) /\
  resolvePath Sample.env 1 [":child"; "value"] (Sample.tree VUndef false [])
  = Ret VUndef (Sample.tree VUndef false []) /\
  resolvePath Sample.env 1 ["value"]
    (setField (Sample.tree VUndef false []) 1 "child" (VRef 3))
  = Ret VUndef (setField (Sample.tree VUndef false []) 1 "child" (VRef 3)).
Proof.
  split; [|split].
  - set (h := setField (Sample.tree VUndef false []) 1 "child" (VRef 3)).
    rewrite (proj1 (proj2 (resolvePath_delegation Sample.env 1
               [":child"; "value"] h h VUndef eq_refl) eq_refl)
               3 ["value"] eq_refl eq_refl).
    vm_compute. reflexivity.
  - exact (proj1 (proj2 (proj2 (resolvePath_delegation Sample.env 1
             [":child"; "value"] (Sample.tree VUndef false [])
             (Sample.tree VUndef false []) VUndef eq_refl) eq_refl))
             eq_refl).
  - refine (proj2 (proj2 (proj2 (proj2 (resolvePath_delegation Sample.env 1
             ["value"]
             (setField (Sample.tree VUndef false []) 1 "child" (VRef 3))
             (setField (Sample.tree VUndef false []) 1 "child" (VRef 3))
             VUndef eq_refl) eq_refl)))
             "value" [] eq_refl _).
    discriminate.
Defined.

(** ** Assignment *)

(** C9.  After the [onSetValue] hook, [setValue(v)] on a link without a
    child writes [v] to [cachedValue] and nothing else: it returns, there is
    still no child, and every other property of every object reads as the
    hook left it.  With a child, the call is the child's [setValue(v)] and
    the link writes nothing of its own, [cachedValue] included. *)
Theorem setValue_frame (E : Externals) (this : loc) (v : value)
  (h h1 : heap) :
  call_onSetValue E this v h = Ret tt h1 ->
  (getField h1 this "child" = VUndef ->
     setValue E this v h = Ret tt (setField h1 this "cachedValue" v) /\
     getField (setField h1 this "cachedValue" v) this "cachedValue" = v /\
     getField (setField h1 this "cachedValue" v) this "child" = VUndef /\
     (forall l k, l <> this \/ k <> "cachedValue" ->
        getField (setField h1 this "cachedValue" v) l k = getField h1 l k)) /\
  (forall c, getField h1 this "child" = VRef c ->
     setValue E this v h = call_setValue E c v h1 /\
     (forall h2, call_setValue E c v h1 = Ret tt h2 ->
        getField h2 this "cachedValue" = getField h1 this "cachedValue" ->
        exists h', setValue E this v h = Ret tt h' /\
          getField h' this "cachedValue" = getField h1 this "cachedValue")).
Proof.
  intros Hhook. unfold setValue. unfold_M. rewrite Hhook. split.
  - intros Hc. rewrite Hc. simpl. repeat split.
    + apply getField_setField_eq.
    + rewrite getField_setField_ne; [exact Hc | right; discriminate].
    + intros l k Hne. apply getField_setField_ne.
      destruct Hne as [Hne|Hne]; [left | right]; congruence.
  - intros c Hc. rewrite Hc. simpl. split; [reflexivity|].
    intros h2 Hset Hkeep. exists h2. now split.
Qed.

Lemma setValue_frame_witness :
  setValue Sample.env 1 (VNum 7) (Sample.tree VUndef false [])
  = Ret tt (setField (Sample.tree VUndef false []) 1 "cachedValue" (VNum 7))
  /\
  setValue Sample.env 1 (VNum 7)
    (setField (Sample.tree VUndef false []) 1 "child" (VRef 3))
  = Ret tt (setField (setField (Sample.tree VUndef false []) 1 "child"
                        (VRef 3)) 3 "value" (VNum 7)).
Proof.
  split.
  - exact (proj1 (proj1 (setValue_frame Sample.env 1 (VNum 7)
             (Sample.tree VUndef false []) (Sample.tree VUndef false [])
             eq_refl) eq_refl)).
  - exact (proj1 (proj2 (setValue_frame Sample.env 1 (VNum 7)
             (setField (Sample.tree VUndef false []) 1 "child" (VRef 3))
             (setField (Sample.tree VUndef false []) 1 "child" (VRef 3))
             eq_refl) 3 eq_refl)).
Defined.

(** ** Visibility *)

(** C10.  Whatever [shouldDisplay()] returns is the answer of the base
    class, with or without a transition: the call either returns that very
    value or throws, and it throws only when [createChild] or the child's
    [getValue] does.  When the answer is truthy and the parent is
    collapsible and collapsed, the call returns it and leaves the store as
    the base class left it: no child is made, a link without a child stays
    so, and [cachedValue] is not written. *)
Theorem shouldDisplay_returns_base (E : Externals) (this : loc)
  (h h1 : heap) (display : value) :
  super_shouldDisplay E this h = Ret display h1 ->
  ((exists h', shouldDisplay E this h = Ret display h') \/
   (exists h', shouldDisplay E this h = Throw h')) /\
  (forall h2,
     truthy display = true ->
     getField h1 this "child" = VUndef ->
     truthy (isParentCollapsed this h1) = false ->
     createChild E this h1 = Ret tt h2 ->
     shouldDisplay E this h = Ret display h2) /\
  (forall c v h2,
     truthy display = false ->
     getField h1 this "child" = VRef c ->
     call_getValue E c h1 = Ret v h2 ->
     exists h3, shouldDisplay E this h = Ret display h3) /\
  (truthy display = true ->
   truthy (isParentCollapsed this h1) = true ->
   shouldDisplay E this h = Ret display h1).
Proof.
  intros Hbase. unfold shouldDisplay, deleteChild. unfold_M.
  rewrite Hbase. split; [|split; [|split]].
  - destruct (truthy display).
    + destruct (is_undef (getField h1 this "child")
                && negb (truthy (isParentCollapsed this h1))).
      * destruct (createChild E this h1) as [[] h2|h2]; eauto.
      * eauto.
    + destruct (negb (is_undef (getField h1 this "child"))); [|eauto].
      destruct (invoke (getField h1 this "child") (call_getValue E) h1)
        as [v h2|h2]; eauto.
  - intros h2 -> -> -> Hcreate. simpl. now rewrite Hcreate.
  - intros c v h2 -> -> Hget. simpl. rewrite Hget. eauto.
  - intros -> ->. now rewrite andb_false_r.
Qed.

Lemma shouldDisplay_returns_base_witness :
  shouldDisplay Sample.env 1 (Sample.tree (VBool true) true [])
  = Ret (VBool true) (Sample.tree (VBool true) true []).
Proof.
  exact (proj2 (proj2 (proj2 (shouldDisplay_returns_base Sample.env 1
           (Sample.tree (VBool true) true [])
           (Sample.tree (VBool true) true []) (VBool true) eq_refl)))
           eq_refl eq_refl).
Defined.

(** [getValue()] on a link without a child reads the cache and leaves the
    store alone. *)
Lemma getValue_absent (E : Externals) (this : loc) (h : heap) :
  truthy (getField h this "child") = false ->
  getValue E this h = Ret (getField h this "cachedValue") h.
Proof. intros Hc. unfold getValue. unfold_M. now rewrite Hc. Qed.

(** [getValue()] on a link with a child is the child's [getValue()]. *)
Lemma getValue_active (E : Externals) (this : loc) (h : heap) c :
  getField h this "child" = VRef c ->
  getValue E this h = call_getValue E c h.
Proof. intros Hc. unfold getValue. unfold_M. now rewrite Hc. Qed.

(** C4.  On a link whose child yields [v], a [shouldDisplay()] that finds
    the field invisible stores [v] in [cachedValue] and drops the child;
    from then on, in every store where the link still has no child and the
    cache still holds [v], [getValue()] returns [v] and changes nothing. *)
Theorem value_kept_after_destruction (E : Externals) (this : loc)
  (h h1 h2 : heap) (display v : value) (c : loc) :
  super_shouldDisplay E this h = Ret display h1 ->
  truthy display = false ->
  getField h1 this "child" = VRef c ->
  call_getValue E c h1 = Ret v h2 ->
  exists h3,
    shouldDisplay E this h = Ret display h3 /\
    getField h3 this "cachedValue" = v /\
    getField h3 this "child" = VUndef /\
    getValue E this h3 = Ret v h3 /\
    (forall h',
       getField h' this "child" = VUndef ->
       getField h' this "cachedValue" = v ->
       getValue E this h' = Ret v h').
Proof.
  intros Hbase Hd Hc Hv.
  exists (setField (setField h2 this "cachedValue" v) this "child" VUndef).
  assert (Hchild : forall g : heap,
             getField (setField g this "child" VUndef) this "child" = VUndef)
    by (intros g; apply getField_setField_eq).
  assert (Hcache :
    getField (setField (setField h2 this "cachedValue" v) this "child" VUndef)
      this "cachedValue" = v).
  { rewrite getField_setField_ne by (right; discriminate).
    apply getField_setField_eq. }
  split; [|split; [exact Hcache | split; [apply Hchild | split]]].
  - unfold shouldDisplay, deleteChild. unfold_M.
    rewrite Hbase, Hd, Hc. simpl. now rewrite Hv.
  - rewrite getValue_absent by (now rewrite Hchild). now rewrite Hcache.
  - intros h' Hc' Hv'. rewrite getValue_absent by (now rewrite Hc').
    now rewrite Hv'.
Qed.

Lemma value_kept_after_destruction_witness :
  exists h3,
    shouldDisplay Sample.env 1
      (setField (Sample.tree (VBool false) false []) 1 "child" (VRef 3))
    = Ret (VBool false) h3 /\
    getValue Sample.env 1 h3 = Ret (VStr "default") h3.
Proof.
  destruct (value_kept_after_destruction Sample.env 1
              (setField (Sample.tree (VBool false) false []) 1 "child" (VRef 3))
              (setField (Sample.tree (VBool false) false []) 1 "child" (VRef 3))
              (setField (Sample.tree (VBool false) false []) 1 "child" (VRef 3))
              (VBool false) (VStr "default") 3
              eq_refl eq_refl eq_refl eq_refl)
    as (h3 & Hrun & _ & _ & Hget & _).
  exists h3. split; [exact Hrun | exact Hget].
Defined.

(** ** Validation *)

Lemma getProp_setField_ne (h : heap) l k v x k' :
  k <> k' -> getProp (setField h l k v) x k' = getProp h x k'.
Proof.
  intros Hne. destruct x; simpl; try reflexivity.
  f_equal. apply getField_setField_ne. now right.
Qed.

Lemma hasOwn_setField_ne (h : heap) l k v x k' :
  k <> k' -> hasOwn (setField h l k v) x k' = hasOwn h x k'.
Proof.
  intros Hne. destruct x as [| | | | |l']; simpl; try reflexivity.
  destruct (decide (l = l')) as [<-|Hl].
  - now rewrite props_setField_eq, assoc_obj_set_ne.
  - now rewrite props_setField_ne.
Qed.

Lemma derived_childrenValid_setField_child (h : heap) l v x :
  derived_childrenValid (setField h l "child" v) x = derived_childrenValid h x.
Proof.
  unfold derived_childrenValid.
  rewrite hasOwn_setField_ne by discriminate.
  now rewrite !getProp_setField_ne by discriminate.
Qed.

(** The tail of [revalidate], once the result of the child is known. *)
Lemma revalidate_attach (h : heap) (lv : loc) (r flag : value) :
  derived_childrenValid h r = Some flag ->
  let h' := setField (setField h lv "child" r) lv "childrenValid" flag in
  (let! vchild := try_read (fun h => getProp h (VRef lv) "child") in
   let! own := try_read (fun h => hasOwn h vchild "childrenValid") in
   let! childrenValid :=
     (if own : bool then
        let! vchild := try_read (fun h => getProp h (VRef lv) "child") in
        try_read (fun h => getProp h vchild "childrenValid")
      else
        let! vchild := try_read (fun h => getProp h (VRef lv) "child") in
        try_read (fun h => getProp h vchild "valid")) in
   do! setProp (VRef lv) "childrenValid" childrenValid in
   ret (VRef lv)) (setField h lv "child" r) = Ret (VRef lv) h' /\
  getField h' lv "child" = r /\
  getField h' lv "childrenValid" = flag.
Proof.
  intros Hflag h'. subst h'.
  rewrite <- (derived_childrenValid_setField_child h lv r r) in Hflag.
  unfold derived_childrenValid in Hflag.
  split; [|split].
  - unfold_M. simpl. rewrite getField_setField_eq.
    destruct (hasOwn (setField h lv "child" r) r "childrenValid")
      as [[|]|] eqn:Hown; [| |discriminate];
      rewrite ?getField_setField_eq; now rewrite Hflag.
  - rewrite getField_setField_ne by (right; discriminate).
    apply getField_setField_eq.
  - apply getField_setField_eq.
Qed.

(** C6.  [revalidate(errorCollection)] returns the result object of the
    base class with two more properties.  [child] is what the child's
    [revalidate] returned if there is a child, and a new object
    [{valid: true}] if there is none.  [childrenValid] is the
    [childrenValid] of that sub-result if it has one, else its [valid].  So
    without a child [childrenValid] is [true], and with a child whose result
    has [childrenValid = false] it is [false]. *)
Theorem revalidate_aggregates (E : Externals) (this : loc)
  (errorCollection : value) (h h1 : heap) (lv : loc) :
  super_revalidate E this errorCollection h = Ret (VRef lv) h1 ->
  is_Some (h1 !! lv) ->
  (truthy (getField h1 this "child") = false ->
     exists l h',
       revalidate E this errorCollection h = Ret (VRef lv) h' /\
       getField h' lv "child" = VRef l /\
       h1 !! l = None /\
       props h' l = [("valid", VBool true)] /\
       getField h' lv "childrenValid" = VBool true) /\
  (forall c r h2 flag,
     getField h1 this "child" = VRef c ->
     call_revalidate E c errorCollection h1 = Ret r h2 ->
     derived_childrenValid h2 r = Some flag ->
     exists h',
       revalidate E this errorCollection h = Ret (VRef lv) h' /\
       getField h' lv "child" = r /\
       getField h' lv "childrenValid" = flag) /\
  (forall c lr h2,
     getField h1 this "child" = VRef c ->
     call_revalidate E c errorCollection h1 = Ret (VRef lr) h2 ->
     assoc "childrenValid" (props h2 lr) = Some (VBool false) ->
     exists h',
       revalidate E this errorCollection h = Ret (VRef lv) h' /\
       getField h' lv "childrenValid" = VBool false).
Proof.
  intros Hbase Hlv.
  assert (Hactive : forall c r h2 flag,
    getField h1 this "child" = VRef c ->
    call_revalidate E c errorCollection h1 = Ret r h2 ->
    derived_childrenValid h2 r = Some flag ->
    exists h',
      revalidate E this errorCollection h = Ret (VRef lv) h' /\
      getField h' lv "child" = r /\
      getField h' lv "childrenValid" = flag).
  { intros c r h2 flag Hc Hr Hflag.
    destruct (revalidate_attach h2 lv r flag Hflag) as (Hrun & Hch & Hcv).
    eexists. split; [|split; [exact Hch | exact Hcv]].
    unfold revalidate. unfold bind at 1. rewrite Hbase.
    unfold bind at 1. unfold get_this at 1, read at 1. rewrite Hc. simpl.
    unfold bind at 1. unfold bind at 1. rewrite Hr.
    exact Hrun. }
  split; [|split; [exact Hactive|]].
  - intros Hc.
    destruct (alloc [("valid", VBool true)] h1) as [l h2|] eqn:Halloc;
      [|discriminate].
    destruct (alloc_fresh _ _ _ _ lv Halloc Hlv) as (Hne & _ & Hl).
    assert (Hnew : h1 !! l = None).
    { unfold alloc in Halloc. injection Halloc as <- _.
      apply not_elem_of_dom, is_fresh. }
    assert (Hprops : props h2 l = [("valid", VBool true)])
      by (unfold props; now rewrite Hl).
    assert (Hflag : derived_childrenValid h2 (VRef l) = Some (VBool true)).
    { unfold derived_childrenValid. simpl. unfold getField.
      now rewrite Hprops. }
    destruct (revalidate_attach h2 lv (VRef l) _ Hflag) as (Hrun & Hch & Hcv).
    exists l. eexists.
    split; [|split; [exact Hch | split; [exact Hnew | split; [|exact Hcv]]]].
    + unfold revalidate. unfold bind at 1. rewrite Hbase.
      unfold bind at 1. unfold get_this at 1, read at 1. rewrite Hc. simpl.
      unfold bind at 1. unfold bind at 1. rewrite Halloc.
      exact Hrun.
    + rewrite !props_setField_ne by congruence. exact Hprops.
  - intros c lr h2 Hc Hr Hfalse.
    destruct (Hactive c (VRef lr) h2 (VBool false) Hc Hr) as (h' & Hrun & _ & Hcv).
    + unfold derived_childrenValid. simpl. rewrite Hfalse. simpl.
      unfold getField. now rewrite Hfalse.
    + exists h'. now split.
Qed.

Lemma revalidate_aggregates_witness :
  (exists h',
     revalidate Sample.env 1 VUndef (Sample.tree VUndef false [])
     = Ret (VRef 7) h' /\
     getField h' 7 "childrenValid" = VBool true) /\
  (exists h',
     revalidate Sample.env 1 VUndef
       (setField
          (setField
             (<[8 := [("valid", VBool true); ("childrenValid", VBool false)]]>
                (Sample.tree VUndef false []))
             3 "validation" (VRef 8))
          1 "child" (VRef 3))
     = Ret (VRef 9) h' /\
     getField h' 9 "childrenValid" = VBool false).
Proof.
  split.
  - destruct (proj1 (revalidate_aggregates Sample.env 1 VUndef
                       (Sample.tree VUndef false [])
                       (<[7 := [("valid", VBool true)]]>
                          (Sample.tree VUndef false []))
                       7 eq_refl (ex_intro _ _ eq_refl)) eq_refl)
      as (l & h' & Hrun & _ & _ & _ & Hflag).
    exists h'. split; [exact Hrun | exact Hflag].
  - set (h := setField
                (setField
                   (<[8 := [("valid", VBool true);
                            ("childrenValid", VBool false)]]>
                      (Sample.tree VUndef false []))
                   3 "validation" (VRef 8))
                1 "child" (VRef 3)).
    assert (Hbase : super_revalidate Sample.env 1 VUndef h
                    = Ret (VRef 9) (<[9 := [("valid", VBool true)]]> h))
      by (vm_compute; reflexivity).
    refine (proj2 (proj2 (revalidate_aggregates Sample.env 1 VUndef h
                            (<[9 := [("valid", VBool true)]]> h)
                            9 Hbase (ex_intro _ _ _)))
                  3 8 (<[9 := [("valid", VBool true)]]> h) _ _ _);
      vm_compute; reflexivity.
Defined.

(** ** Overrides *)

Lemma bind_ext {A B} (m : M A) (k k' : A -> M B) (h : heap) :
  (forall a h', k a h' = k' a h') -> bind m k h = bind m k' h.
Proof. intros Hk. unfold bind. destruct (m h); [apply Hk | reflexivity]. Qed.

Lemma bind_assoc {A B C} (m : M A) (k : A -> M B) (k' : B -> M C) h :
  bind (bind m k) k' h = bind m (fun a => bind (k a) k') h.
Proof. unfold bind. now destruct (m h). Qed.


Lemma override_terminal (root : value) (path : list string) (v : value) h :
  (let! target :=
     try_read (fun h => resolveRawPath h root (List.removelast path)) in
   if is_null v then delProp target (List.last path "undefined")
   else setProp target (List.last path "undefined") v) h =
  (let! container :=
     try_read (fun h => resolveRawPath_fold h root (List.removelast path)) in
   write_terminal container (List.last path "undefined") v) h.
Proof.
  unfold bind, try_read, write_terminal. rewrite resolveRawPath_is_fold.
  destruct (resolveRawPath_fold h root _); [|reflexivity].
  now destruct v.
Qed.

(** One turn of the loop of [createChild] does what section 4.2 says. *)
Lemma apply_override_entry (E : Externals) (this : loc) entry h :
  apply_override E this entry h = override_entry E this entry h.
Proof.
  destruct entry as [field v].
  unfold apply_override, override_entry, override_plan, splice_last.
  cbn [fst snd].
  destruct (includes ";" field) eqn:Hsep; cbn [fst snd].
  - destruct (split_includes _ _ Hsep) as (x & y & rest & ->).
    cbn [nth]. rewrite !bind_assoc. apply bind_ext. intros child h1.
    rewrite !bind_assoc. apply bind_ext. intros root h2.
    unfold bind at 1, ret at 1. apply override_terminal.
  - rewrite !bind_assoc. apply bind_ext. intros child h1.
    unfold bind at 1 3, ret at 1 2. apply override_terminal.
Qed.



(** *** The order of [Object.entries] *)














(** ** The visibility query as the driver of the state machine *)

(** [shouldDisplay()] in a link that has a child and is visible, or has no
    child and is invisible, is the query of the base class and nothing
    more. *)
Lemma shouldDisplay_settled (E : Externals) (this : loc) h h1 display :
  super_shouldDisplay E this h = Ret display h1 ->
  (if truthy display then
     negb (is_undef (getField h1 this "child"))
     || truthy (isParentCollapsed this h1)
   else is_undef (getField h1 this "child")) = true ->
  shouldDisplay E this h = Ret display h1.
Proof.
  intros Hbase Hsettled. unfold shouldDisplay. unfold_M. rewrite Hbase.
  destruct (truthy display).
  - destruct (is_undef (getField h1 this "child")),
             (truthy (isParentCollapsed this h1)); try reflexivity.
    discriminate.
  - now rewrite Hsettled.
Qed.

(** C3.  A call of [shouldDisplay()] creates no child when there is one and
    the field is visible, and deletes none when there is none and the field
    is invisible: it then only asks the base class.  After a first call that
    returned, a second call that meets the same visibility (the same answer
    of the base class, the same collapsed state of the parent) performs no
    transition: it returns the answer and the store of the base class, in
    which [child] is what the first call left.  The first call leaves no
    child when the field is invisible; when it creates the child, the child
    it installed is taken to be still in place at the end of the creation. *)
Theorem shouldDisplay_idempotent (E : Externals) (this : loc) :
  (forall h h1 d,
     super_shouldDisplay E this h = Ret d h1 ->
     truthy d = true -> getField h1 this "child" <> VUndef ->
     shouldDisplay E this h = Ret d h1) /\
  (forall h h1 d,
     super_shouldDisplay E this h = Ret d h1 ->
     truthy d = false -> getField h1 this "child" = VUndef ->
     shouldDisplay E this h = Ret d h1) /\
  (forall h ha h1 hb d d',
     super_shouldDisplay E this h = Ret d ha ->
     shouldDisplay E this h = Ret d h1 ->
     (createChild E this ha = Ret tt h1 ->
      getField h1 this "child" <> VUndef) ->
     super_shouldDisplay E this h1 = Ret d' hb ->
     truthy d' = truthy d ->
     truthy (isParentCollapsed this hb) = truthy (isParentCollapsed this ha) ->
     getField hb this "child" = getField h1 this "child" ->
     shouldDisplay E this h1 = Ret d' hb).
Proof.
  split; [|split].
  - intros h h1 d Hbase Hd Hc. apply shouldDisplay_settled; [exact Hbase|].
    rewrite Hd. destruct (getField h1 this "child"); try reflexivity.
    now destruct Hc.
  - intros h h1 d Hbase Hd Hc. apply shouldDisplay_settled; [exact Hbase|].
    now rewrite Hd, Hc.
  - intros h ha h1 hb d d' Hbase Hfirst Hkeep Hbase' Hd Hcol Hchild.
    apply shouldDisplay_settled; [exact Hbase'|].
    rewrite Hd, Hcol, Hchild.
    unfold shouldDisplay, deleteChild in Hfirst. unfold_M.
    rewrite Hbase in Hfirst.
    destruct (truthy d).
    + destruct (is_undef (getField ha this "child")) eqn:Hu;
        destruct (truthy (isParentCollapsed this ha)) eqn:Hp;
        simpl in Hfirst.
      * injection Hfirst as <-. now rewrite orb_true_r.
      * destruct (createChild E this ha) as [[] h2|h2] eqn:Hcreate;
          [|discriminate].
        injection Hfirst as <-. specialize (Hkeep eq_refl).
        destruct (getField h2 this "child"); try reflexivity.
        now destruct Hkeep.
      * injection Hfirst as <-. now rewrite orb_true_r.
      * injection Hfirst as <-. now rewrite Hu.
    + destruct (is_undef (getField ha this "child")) eqn:Hu;
        simpl in Hfirst.
      * injection Hfirst as <-. exact Hu.
      * destruct (invoke (getField ha this "child") (call_getValue E) ha)
          as [v h2|h2]; [|discriminate].
        injection Hfirst as <-. now rewrite getField_setField_eq.
Qed.

Lemma shouldDisplay_idempotent_witness :
  exists h1,
    shouldDisplay Sample.env 1
      (Sample.tree (VBool true) false [("a/b/c", VNum 2)])
    = Ret (VBool true) h1 /\
    getField h1 1 "child" = VRef 7 /\
    shouldDisplay Sample.env 1 h1 = Ret (VBool true) h1.
Proof.
  set (h := Sample.tree (VBool true) false [("a/b/c", VNum 2)]).
  set (h1 := match shouldDisplay Sample.env 1 h with
             | Ret _ h1 => h1
             | Throw h1 => h1
             end).
  assert (Hfirst : shouldDisplay Sample.env 1 h = Ret (VBool true) h1)
    by (vm_compute; reflexivity).
  exists h1. split; [exact Hfirst|]. split; [vm_compute; reflexivity|].
  refine (proj2 (proj2 (shouldDisplay_idempotent Sample.env 1))
            h h h1 h1 (VBool true) (VBool true) _ Hfirst _ _ _ _ _);
    try (vm_compute; reflexivity).
  intros _. vm_compute. discriminate.
Defined.

(** ** A value assigned before the child exists *)

(** The second half of [createChild] on a truthy cache: the child receives
    the cached value, then the cache is cleared. *)
Lemma use_cachedValue_truthy (E : Externals) (this : loc) h h' c v :
  getField h this "cachedValue" = v -> truthy v = true ->
  getField h this "child" = VRef c ->
  call_setValue E c v h = Ret tt h' ->
  use_cachedValue E this h = Ret tt (setField h' this "cachedValue" VUndef).
Proof.
  intros Hv Ht Hc Hset. unfold use_cachedValue. unfold_M.
  rewrite Hv, Ht, Hc. simpl. now rewrite Hset.
Qed.

(** The second half of [createChild] on a cache that holds nothing truthy
    does nothing. *)
Lemma use_cachedValue_falsy (E : Externals) (this : loc) h :
  truthy (getField h this "cachedValue") = false ->
  use_cachedValue E this h = Ret tt h.
Proof. intros Ht. unfold use_cachedValue. unfold_M. now rewrite Ht. Qed.

(** C1, as amended.  Let [v] be truthy.  [setValue(v)] on a link without a
    child, then a [shouldDisplay()] that finds the field visible, the parent
    not collapsed, and clones and overrides without touching the cache:
    the new child receives [setValue(v)], [cachedValue] is [undefined] when
    [shouldDisplay()] returns, and [getValue()] then is the child's
    [getValue()], so it returns [v] when the child returns what it was
    given. *)
Theorem value_round_trip_pre_creation (E : Externals) (this : loc)
  (v d : value) (c : loc) (h0 h1 h3 h4 h5 h6 : heap) :
  truthy v = true ->
  call_onSetValue E this v h0 = Ret tt h1 ->
  getField h1 this "child" = VUndef ->
  super_shouldDisplay E this (setField h1 this "cachedValue" v) = Ret d h3 ->
  truthy d = true ->
  getField h3 this "child" = VUndef ->
  truthy (isParentCollapsed this h3) = false ->
  clone_and_override E this h3 = Ret tt h4 ->
  getField h4 this "child" = VRef c ->
  getField h4 this "cachedValue" = v ->
  call_setValue E c v h4 = Ret tt h5 ->
  getField h5 this "child" = VRef c ->
  call_getValue E c (setField h5 this "cachedValue" VUndef) = Ret v h6 ->
  (do! setValue E this v in shouldDisplay E this) h0
    = Ret d (setField h5 this "cachedValue" VUndef) /\
  getField (setField h5 this "cachedValue" VUndef) this "cachedValue"
    = VUndef /\
  getValue E this (setField h5 this "cachedValue" VUndef) = Ret v h6 /\
  (do! setValue E this v in do! shouldDisplay E this in getValue E this) h0
    = Ret v h6.
Proof.
  intros Hv Hhook Habs Hbase Hd Habs3 Hcol Hclone Hc Hcache Hset Hc5 Hget.
  assert (Hset_abs :
    setValue E this v h0 = Ret tt (setField h1 this "cachedValue" v)).
  { unfold setValue. unfold_M. now rewrite Hhook, Habs. }
  assert (Hcreate :
    createChild E this h3 = Ret tt (setField h5 this "cachedValue" VUndef)).
  { unfold createChild, bind. rewrite Hclone.
    now apply use_cachedValue_truthy with (c := c) (v := v). }
  assert (Hshow :
    shouldDisplay E this (setField h1 this "cachedValue" v)
    = Ret d (setField h5 this "cachedValue" VUndef)).
  { unfold shouldDisplay. unfold bind at 1. rewrite Hbase, Hd.
    unfold_M. rewrite Habs3, Hcol. simpl. now rewrite Hcreate. }
  assert (Hread :
    getValue E this (setField h5 this "cachedValue" VUndef) = Ret v h6).
  { rewrite getValue_active with (c := c); [exact Hget|].
    rewrite getField_setField_ne by (right; discriminate). exact Hc5. }
  split; [|split; [apply getField_setField_eq | split; [exact Hread|]]].
  - unfold bind. now rewrite Hset_abs.
  - unfold bind. now rewrite Hset_abs, Hshow.
Qed.

Lemma value_round_trip_pre_creation_witness :
  exists h6,
    (do! setValue Sample.env 1 (VNum 7) in
     do! shouldDisplay Sample.env 1 in
     getValue Sample.env 1)
      (Sample.tree (VBool true) false [("a/b/c", VNum 2)])
    = Ret (VNum 7) h6 /\
    getField h6 1 "cachedValue" = VUndef.
Proof.
  set (h0 := Sample.tree (VBool true) false [("a/b/c", VNum 2)]).
  set (h2 := setField h0 1 "cachedValue" (VNum 7)).
  set (h4 := match clone_and_override Sample.env 1 h2 with
             | Ret _ h => h
             | Throw h => h
             end).
  set (h5 := setField h4 7 "value" (VNum 7)).
  exists (setField h5 1 "cachedValue" VUndef).
  split; [|vm_compute; reflexivity].
  refine (proj2 (proj2 (proj2
            (value_round_trip_pre_creation Sample.env 1 (VNum 7) (VBool true)
               7 h0 h0 h2 h4 h5 (setField h5 1 "cachedValue" VUndef)
               _ _ _ _ _ _ _ _ _ _ _ _ _))));
    vm_compute; reflexivity.
Defined.

(** C1 as stated fails for a value that is not truthy.  After
    [setValue(false)] and the creation of the child, the cache still holds
    [false] and [getValue()] returns the value of the clone; after
    [setValue(undefined)], [getValue()] returns the value of the clone as
    well. *)
Lemma value_round_trip_pre_creation_counterexample :
  getField (Sample.tree (VBool true) false []) 1 "child" = VUndef /\
  (exists h2 h3,
     (do! setValue Sample.env 1 (VBool false) in shouldDisplay Sample.env 1)
       (Sample.tree (VBool true) false [])
       = Ret (VBool true) h2 /\
     getField h2 1 "child" = VRef 7 /\
     getField h2 1 "cachedValue" = VBool false /\
     getField h2 1 "cachedValue" <> VUndef /\
     getValue Sample.env 1 h2 = Ret (VStr "default") h3 /\
     VStr "default" <> VBool false) /\
  (exists h2 h3,
     (do! setValue Sample.env 1 VUndef in shouldDisplay Sample.env 1)
       (Sample.tree (VBool true) false [])
       = Ret (VBool true) h2 /\
     getField h2 1 "child" = VRef 7 /\
     getValue Sample.env 1 h2 = Ret (VStr "default") h3 /\
     VStr "default" <> VUndef).
Proof.
  split; [vm_compute; reflexivity|]. split.
  - eexists. eexists.
    split; [vm_compute; reflexivity|].
    split; [vm_compute; reflexivity|].
    split; [vm_compute; reflexivity|].
    split; [vm_compute; discriminate|].
    split; [vm_compute; reflexivity | discriminate].
  - eexists. eexists.
    split; [vm_compute; reflexivity|].
    split; [vm_compute; reflexivity|].
    split; [vm_compute; reflexivity | discriminate].
Qed.

(** ** What leaves the state machine alone *)

Section Frames.

Variable this : loc.

Lemma keeps_link_allocated {A} (m : M A) :
  keeps_link this m -> keeps_allocated this m.
Proof. intros Hm h r h' Ha Hr. now destruct (Hm h r h' Ha Hr). Qed.

Lemma keeps_link_ret {A} (a : A) : keeps_link this (ret a).
Proof. intros h r h' Ha [= _ <-]. now split. Qed.

Lemma keeps_link_throw {A} : keeps_link this (@throw A).
Proof. intros h r h' _ [=]. Qed.

Lemma keeps_link_read {A} (f : heap -> A) : keeps_link this (read f).
Proof. intros h r h' Ha [= _ <-]. now split. Qed.

Lemma keeps_link_try_read {A} (f : heap -> option A) :
  keeps_link this (try_read f).
Proof.
  intros h r h' Ha. unfold try_read.
  destruct (f h); intros [= _ <-]. now split.
Qed.

Lemma keeps_link_bind_post {A B} (P : A -> Prop) (m : M A) (k : A -> M B) :
  keeps_link this m ->
  (forall h a h', allocated this h -> m h = Ret a h' -> P a) ->
  (forall a, P a -> keeps_link this (k a)) ->
  keeps_link this (bind m k).
Proof.
  intros Hm HP Hk h r h' Ha. unfold bind.
  destruct (m h) as [a h1|h1] eqn:Hrun; [|discriminate].
  intros Hr. destruct (Hm h a h1 Ha Hrun) as [Ha1 Hown1].
  destruct (Hk a (HP h a h1 Ha Hrun) h1 r h' Ha1 Hr) as [Ha' Hown'].
  split; [exact Ha' | congruence].
Qed.

Lemma keeps_link_bind {A B} (m : M A) (k : A -> M B) :
  keeps_link this m -> (forall a, keeps_link this (k a)) ->
  keeps_link this (bind m k).
Proof.
  intros Hm Hk. apply keeps_link_bind_post with (P := fun _ => True); auto.
Qed.

Lemma keeps_link_alloc o : keeps_link this (alloc o).
Proof.
  intros h l h' Ha Hrun.
  destruct (alloc_fresh h o l h' this Hrun Ha) as (Hne & Hsame & _).
  split.
  - unfold allocated. now rewrite Hsame.
  - unfold own_fields, getField, props. now rewrite Hsame.
Qed.

Lemma keeps_link_setField l k v :
  l <> this \/ (k <> "child" /\ k <> "cachedValue") ->
  keeps_link this (fun h => Ret tt (setField h l k v)).
Proof.
  intros Hne h r h' Ha [= _ <-]. split.
  - now apply lookup_setField_is_Some.
  - unfold own_fields.
    rewrite !getField_setField_ne; [reflexivity | |]; tauto.
Qed.

Lemma keeps_link_setProp x k v :
  x <> VRef this -> keeps_link this (setProp x k v).
Proof.
  intros Hne. destruct x; try apply keeps_link_throw.
  apply keeps_link_setField. left. congruence.
Qed.

Lemma keeps_link_invoke {A} x (m : loc -> M A) :
  (forall l, keeps_link this (m l)) -> keeps_link this (invoke x m).
Proof. intros Hm. destruct x; try apply keeps_link_throw. apply Hm. Qed.

Lemma keeps_allocated_ret {A} (a : A) : keeps_allocated this (ret a).
Proof. apply keeps_link_allocated, keeps_link_ret. Qed.

Lemma keeps_allocated_bind {A B} (m : M A) (k : A -> M B) :
  keeps_allocated this m -> (forall a, keeps_allocated this (k a)) ->
  keeps_allocated this (bind m k).
Proof.
  intros Hm Hk h r h' Ha. unfold bind.
  destruct (m h) as [a h1|h1] eqn:Hrun; [|discriminate].
  intros Hr. exact (Hk a h1 r h' (Hm h a h1 Ha Hrun) Hr).
Qed.

Lemma keeps_allocated_setProp x k v : keeps_allocated this (setProp x k v).
Proof.
  destruct x; try (intros h r h' _ Hrun; discriminate Hrun).
  intros h r h' Ha [= _ <-]. now apply lookup_setField_is_Some.
Qed.

Lemma keeps_allocated_delProp x k : keeps_allocated this (delProp x k).
Proof.
  destruct x as [| | | |s|l];
    try (intros h r h' _ Hrun; discriminate Hrun);
    try apply keeps_allocated_ret.
  - simpl. destruct (bool_decide _).
    + intros h r h' _ Hrun. discriminate Hrun.
    + apply keeps_allocated_ret.
  - intros h r h' Ha [= _ <-]. now apply lookup_delField_is_Some.
Qed.

Lemma keeps_allocated_set_this k v : keeps_allocated this (set_this this k v).
Proof. intros h r h' Ha [= _ <-]. now apply lookup_setField_is_Some. Qed.

Lemma keeps_allocated_for_of {A} (es : list A) (body : A -> M unit) :
  (forall e, keeps_allocated this (body e)) ->
  keeps_allocated this (for_of es body).
Proof.
  intros Hbody. induction es as [|e es IH]; simpl.
  - apply keeps_allocated_ret.
  - apply keeps_allocated_bind; [apply Hbody | intros _; exact IH].
Qed.

End Frames.

Section Frame_of_methods.

Variable E : Externals.
Variable this : loc.
Hypothesis WB : well_behaved E this.

Ltac frame_step :=
  first
    [ apply keeps_link_ret
    | apply keeps_link_throw
    | apply keeps_link_read
    | apply keeps_link_try_read
    | apply keeps_link_alloc
    | apply keeps_link_setField; right; split; discriminate
    | apply (wb_init _ _ WB)
    | apply (wb_super_revalidate _ _ WB)
    | apply (wb_shouldDisplay _ _ WB)
    | apply (wb_super_resolvePath _ _ WB)
    | apply (wb_onSetValue _ _ WB)
    | apply (wb_resolveRef _ _ WB)
    | apply (wb_clone _ _ WB)
    | apply (wb_getValue _ _ WB)
    | apply (wb_setValue _ _ WB)
    | apply (wb_isEmpty _ _ WB)
    | apply (wb_revalidate _ _ WB)
    | apply (wb_resolvePath _ _ WB)
    | apply keeps_link_invoke; intros
    | apply keeps_link_bind; [|intros]
    | match goal with
      | |- keeps_link _ (if ?b then _ else _) => destruct b
      end ].

Ltac frame := repeat frame_step.

Lemma init_keeps_link id args : keeps_link this (init E this id args).
Proof. unfold init, get_this, set_this. frame. Qed.

Lemma isEmpty_keeps_link : keeps_link this (isEmpty E this).
Proof. unfold isEmpty, get_this. frame. Qed.

Lemma getValue_keeps_link : keeps_link this (getValue E this).
Proof. unfold getValue, get_this. frame. Qed.

Lemma resolvePath_keeps_link path : keeps_link this (resolvePath E this path).
Proof. unfold resolvePath, get_this. frame. Qed.

Lemma revalidate_keeps_link ec : keeps_link this (revalidate E this ec).
Proof.
  unfold revalidate, get_this.
  apply keeps_link_bind_post with (P := fun r => r <> VRef this).
  - frame.
  - intros h a h' Ha Hrun. exact (wb_validation _ _ WB ec h a h' Ha Hrun).
  - intros validation Hne.
    assert (Hset : forall k v, keeps_link this (setProp validation k v))
      by (intros k v; now apply keeps_link_setProp).
    repeat first [apply Hset | frame_step].
Qed.

Lemma apply_override_keeps_allocated entry :
  keeps_allocated this (apply_override E this entry).
Proof.
  destruct entry as [field v]. unfold apply_override, get_this.
  apply keeps_allocated_bind.
  - apply keeps_link_allocated.
    destruct (includes ";" field); [destruct (split ";" field) as [|? [|? ?]]|];
      frame.
  - intros [target fieldPath]. unfold splice_last.
    apply keeps_allocated_bind.
    + apply keeps_link_allocated, keeps_link_try_read.
    + intros target'. destruct (is_null v).
      * apply keeps_allocated_delProp.
      * apply keeps_allocated_setProp.
Qed.

Lemma keeps_link_ext {A} (m m' : M A) :
  (forall h, m h = m' h) -> keeps_link this m' -> keeps_link this m.
Proof. intros Heq Hm h r h' Ha Hrun. rewrite Heq in Hrun. eauto. Qed.

Lemma keeps_link_write_terminal x k v :
  k <> "child" -> k <> "cachedValue" ->
  keeps_link this (write_terminal x k v).
Proof.
  intros Hc Hv.
  assert (Hset : keeps_link this (setProp x k v)).
  { destruct x; try apply keeps_link_throw.
    apply keeps_link_setField. right. now split. }
  destruct v; try exact Hset.
  destruct x as [| | | |s|l];
    try apply keeps_link_throw; try apply keeps_link_ret.
  - simpl. destruct (bool_decide _);
      [apply keeps_link_throw | apply keeps_link_ret].
  - intros h r h' Ha [= _ <-]. split.
    + now apply lookup_delField_is_Some.
    + unfold own_fields.
      now rewrite !getField_delField_ne by (right; congruence).
Qed.

(** Wherever its path leads, an override that writes a property with another
    name leaves [child] and [cachedValue] of the link as they are. *)
Lemma apply_override_keeps_link entry :
  spares_link entry -> keeps_link this (apply_override E this entry).
Proof.
  intros [Hc Hv].
  apply keeps_link_ext with (m' := override_entry E this entry);
    [apply apply_override_entry|].
  unfold override_entry, get_this.
  apply keeps_link_bind; [frame|]. intros child.
  apply keeps_link_bind; [destruct (fst (override_plan (fst entry))); frame|].
  intros root. apply keeps_link_bind; [frame|]. intros container.
  now apply keeps_link_write_terminal.
Qed.

Lemma overrides_keep_link entries :
  Forall spares_link entries ->
  keeps_link this (for_of entries (apply_override E this)).
Proof.
  induction 1 as [|e es He _ IH]; simpl; [frame|].
  apply keeps_link_bind; [now apply apply_override_keeps_link|].
  intros _. exact IH.
Qed.

Lemma clone_and_override_keeps_allocated :
  keeps_allocated this (clone_and_override E this).
Proof.
  unfold clone_and_override, get_this.
  repeat (apply keeps_allocated_bind;
          [first [ apply keeps_allocated_set_this
                 | apply keeps_link_allocated; frame ] | intros]).
  apply keeps_allocated_for_of. apply apply_override_keeps_allocated.
Qed.

End Frame_of_methods.

(** The sample tree leaves the state machine to the link. *)
Lemma sample_well_behaved this : well_behaved Sample.env this.
Proof.
  split; simpl; intros.
  - apply keeps_link_bind; [|intros; apply keeps_link_ret].
    apply keeps_link_setField. right. split; discriminate.
  - apply keeps_link_bind; [apply keeps_link_alloc|].
    intros; apply keeps_link_ret.
  - unfold bind, ret in H0.
    destruct (alloc [("valid", VBool true)] h) as [l h1|] eqn:Halloc;
      [|discriminate].
    injection H0 as <- <-.
    destruct (alloc_fresh _ _ _ _ this Halloc H) as (Hne & _). congruence.
  - apply keeps_link_read.
  - destruct p; apply keeps_link_ret.
  - apply keeps_link_ret.
  - destruct p; first [apply keeps_link_ret | apply keeps_link_read].
  - intros h r h' Ha Hrun. exact (keeps_link_alloc this _ h r h' Ha Hrun).
  - apply keeps_link_read.
  - apply keeps_link_setField. right. split; discriminate.
  - apply keeps_link_read.
  - apply keeps_link_read.
  - destruct p as [|? [|? ?]];
      first [apply keeps_link_ret | apply keeps_link_read].
Qed.

(** C2.  The code at the failing input.  A new link is assigned [false]
    and then becomes visible: [createChild()] installs the clone, finds the
    cache not truthy and leaves it, so the link reaches a state with a child
    and [cachedValue === false], not [undefined].  (A creation that throws in
    an override reaches a state with a child and the assigned value still
    cached, too.) *)
Theorem cache_kept_beside_child :
  (exists h2,
     reachable Sample.env 1 h2 /\
     (do! setValue Sample.env 1 (VBool false) in shouldDisplay Sample.env 1)
       (Sample.tree (VBool true) false []) = Ret (VBool true) h2 /\
     getField h2 1 "child" = VRef 7 /\
     getField h2 1 "cachedValue" = VBool false /\
     getField h2 1 "cachedValue" <> VUndef) /\
  (exists h2,
     reachable Sample.env 1 h2 /\
     (do! setValue Sample.env 1 (VNum 7) in shouldDisplay Sample.env 1)
       (Sample.tree (VBool true) false [("x/y/z", VNum 3)]) = Throw h2 /\
     getField h2 1 "child" = VRef 7 /\
     getField h2 1 "cachedValue" = VNum 7).
Proof.
  assert (Hnew : forall es,
            reachable Sample.env 1 (Sample.tree (VBool true) false es)).
  { intros es. apply reach_new.
    - exists [("target", VStr "tpl"); ("overrides", VRef 4);
              ("parent", VRef 2); ("display", VBool true); ("tpl", VRef 3)].
      reflexivity.
    - reflexivity.
    - reflexivity. }
  split.
  - set (h0 := Sample.tree (VBool true) false []).
    set (h1 := setField h0 1 "cachedValue" (VBool false)).
    set (h2 := match run Sample.env 1 ShouldDisplay h1 with
               | Ret _ h' => h'
               | Throw h' => h'
               end).
    exists h2. split; [|repeat split; vm_compute; (reflexivity || discriminate)].
    apply (reach_call Sample.env 1 h1 ShouldDisplay (VBool true) h2);
      [|vm_compute; reflexivity].
    apply (reach_call Sample.env 1 h0 (SetValue (VBool false)) VUndef h1);
      [apply Hnew | vm_compute; reflexivity].
  - set (h0 := Sample.tree (VBool true) false [("x/y/z", VNum 3)]).
    set (h1 := setField h0 1 "cachedValue" (VNum 7)).
    set (h2 := match run Sample.env 1 ShouldDisplay h1 with
               | Ret _ h' => h'
               | Throw h' => h'
               end).
    exists h2. split; [|repeat split; vm_compute; reflexivity].
    apply (reach_throw Sample.env 1 h1 ShouldDisplay h2);
      [|vm_compute; reflexivity].
    apply (reach_call Sample.env 1 h0 (SetValue (VNum 7)) VUndef h1);
      [apply Hnew | vm_compute; reflexivity].
Qed.

(** ** The class at work on the sample tree *)

(** Override application: the template has [a.b.c = 1]; with the override
    [{"a/b/c": 2}] the child created by [shouldDisplay()] has
    [a.b.c = 2]. *)
Example override_sets_nested_property :
  exists h',
    shouldDisplay Sample.env 1
      (Sample.tree (VBool true) false [("a/b/c", VNum 2)])
    = Ret (VBool true) h' /\
    resolveRawPath h' (getField h' 1 "child") ["a"; "b"; "c"]
    = Some (VNum 2).
Proof. eexists. split; vm_compute; reflexivity. Qed.

(** With [{"a/b/c": null}] the child's [a.b] has no key [c] any more. *)
Example override_null_deletes :
  exists h' ab,
    shouldDisplay Sample.env 1
      (Sample.tree (VBool true) false [("a/b/c", VNull)])
    = Ret (VBool true) h' /\
    resolveRawPath h' (getField h' 1 "child") ["a"; "b"] = Some ab /\
    hasOwn h' ab "c" = Some false.
Proof. eexists. eexists. repeat split; vm_compute; reflexivity. Qed.

(** Scoped override: the key ["a;b/c"] resolves [a] by the child's
    [resolveRef] and writes [b.c] of that node. *)
Example override_scoped :
  exists h',
    shouldDisplay Sample.env 1
      (Sample.tree (VBool true) false [("a;b/c", VNum 5)])
    = Ret (VBool true) h' /\
    getField h' 6 "c" = VNum 5 /\
    getField h' 7 "b" = VUndef.
Proof. eexists. repeat split; vm_compute; reflexivity. Qed.

(** An override whose path leaves the tree throws, and the overrides
    before it stay applied. *)
Example override_invalid_path_throws :
  exists h',
    shouldDisplay Sample.env 1
      (Sample.tree (VBool true) false [("a/b/c", VNum 2); ("x/y/z", VNum 3)])
    = Throw h' /\
    getField h' 6 "c" = VNum 2.
Proof. eexists. split; vm_compute; reflexivity. Qed.

(** A link without a target to clone throws when it becomes visible. *)
Example unresolvable_target_throws :
  exists h',
    shouldDisplay Sample.env 1
      (setField (Sample.tree (VBool true) false []) 1 "target" (VStr "none"))
    = Throw h'.
Proof. eexists. vm_compute. reflexivity. Qed.

(** [isEmpty()] without a child looks at the cache. *)
Example isEmpty_absent :
  isEmpty Sample.env 1 (Sample.tree (VBool true) false [])
  = Ret (VBool true) (Sample.tree (VBool true) false []).
Proof. vm_compute. reflexivity. Qed.

(** * Further properties of the class *)

(** ** Raw paths *)

Lemma resolveRawPath_concat (h : heap) (object : value)
  (path rest : list string) :
  resolveRawPath h object (path ++ rest)%list =
  match resolveRawPath h object path with
  | Some o => resolveRawPath h o rest
  | None => None
  end.
Proof.
  revert object. induction path as [|p path IH]; intros object; simpl.
  - reflexivity.
  - destruct (String.eqb p "#"); [apply IH|].
    destruct (getProp h object p); [apply IH | reflexivity].
Qed.

(** X1.  Resolving a path in two pieces: the second piece starts where the first
    one arrived, and a TypeError in the first piece is the TypeError of the
    whole. *)
Theorem resolveRawPath_app (h : heap) (object : value)
  (path rest : list string) :
  resolveRawPath h object (path ++ rest)%list =
  match resolveRawPath h object path with
  | Some o => resolveRawPath h o rest
  | None => None
  end.
Proof. apply resolveRawPath_concat. Qed.

(** X2.  The ['#'] segments of a path can be dropped, wherever they stand. *)
Theorem resolveRawPath_ignores_hash (h : heap) (object : value)
  (path : list string) :
  resolveRawPath h object path =
  resolveRawPath h object
    (List.filter (fun segment => negb (String.eqb segment "#")) path).
Proof.
  revert object. induction path as [|p path IH]; intros object; simpl.
  - reflexivity.
  - destruct (String.eqb p "#") eqn:Hp; simpl; [apply IH|].
    rewrite Hp. destruct (getProp h object p); [apply IH | reflexivity].
Qed.

(** X3.  From [undefined] or [null] only a path made of ['#'] segments resolves
    (to the value itself); any other segment is a TypeError. *)
Theorem resolveRawPath_nullish (h : heap) (object : value)
  (path : list string) :
  object = VUndef \/ object = VNull ->
  resolveRawPath h object path =
  if List.forallb (fun segment => String.eqb segment "#") path
  then Some object else None.
Proof.
  intros Hnull. induction path as [|p path IH]; simpl; [reflexivity|].
  destruct (String.eqb p "#"); simpl; [exact IH|].
  now destruct Hnull as [-> | ->].
Qed.

Lemma resolveRawPath_nullish_witness :
  resolveRawPath (Sample.tree VUndef false []) VUndef ["#"; "#"]
  = Some VUndef /\
  resolveRawPath (Sample.tree VUndef false []) VNull ["#"; "a"] = None.
Proof.
  split.
  - exact (resolveRawPath_nullish (Sample.tree VUndef false []) VUndef
             ["#"; "#"] (or_introl eq_refl)).
  - exact (resolveRawPath_nullish (Sample.tree VUndef false []) VNull
             ["#"; "a"] (or_intror eq_refl)).
Defined.




(** ** Overrides, one entry *)


(** One entry whose key has no [';']: the outcome by the container its
    path reaches. *)
Lemma apply_override_plain (E : Externals) (this : loc) field v h :
  includes ";" field = false ->
  apply_override E this (field, v) h =
  match resolveRawPath h (getField h this "child")
          (List.removelast (split "/" field)) with
  | Some container =>
      write_terminal container (List.last (split "/" field) "undefined") v h
  | None => Throw h
  end.
Proof.
  intros Hsep. rewrite apply_override_entry.
  unfold override_entry, override_plan. cbn [fst snd].
  rewrite Hsep. cbn [fst snd]. unfold_M.
  rewrite <- resolveRawPath_is_fold.
  now destruct (resolveRawPath h (getField h this "child") _).
Qed.






(** X7.  A key without [';'] whose leading segments do not resolve (a segment
    steps into [undefined] or [null]) throws and writes nothing. *)
Theorem override_unresolved_path_throws (E : Externals) (this : loc)
  (field : string) (v : value) (h : heap) :
  includes ";" field = false ->
  resolveRawPath h (getField h this "child")
    (List.removelast (split "/" field)) = None ->
  apply_override E this (field, v) h = Throw h.
Proof.
  intros Hsep Hpath. rewrite apply_override_plain by exact Hsep.
  now rewrite Hpath.
Qed.

Lemma override_unresolved_path_throws_witness :
  apply_override Sample.env 1 ("x/y/z", VNum 3)
    (setField (Sample.tree VUndef false []) 1 "child" (VRef 3))
  = Throw (setField (Sample.tree VUndef false []) 1 "child" (VRef 3)).
Proof.
  exact (override_unresolved_path_throws Sample.env 1 "x/y/z" (VNum 3)
           (setField (Sample.tree VUndef false []) 1 "child" (VRef 3))
           eq_refl eq_refl).
Defined.

(** ** Overrides, the loop *)

Lemma for_of_app {A} (es1 es2 : list A) (body : A -> M unit) h :
  for_of (es1 ++ es2)%list body h =
  (do! for_of es1 body in for_of es2 body) h.
Proof.
  revert h. induction es1 as [|e es1 IH]; intros h; simpl.
  - reflexivity.
  - unfold bind at 1 2 3. destruct (body e h) as [[] h1|h1]; [|reflexivity].
    rewrite IH. reflexivity.
Qed.

(** X8.  No rollback: when an entry throws, the loop throws with the store in
    which the entries before it are applied, and the entries after it are
    not looked at. *)
Theorem overrides_stop_at_first_failure (E : Externals) (this : loc)
  (before after : list (string * value)) (entry : string * value)
  (h h1 h2 : heap) :
  for_of before (apply_override E this) h = Ret tt h1 ->
  apply_override E this entry h1 = Throw h2 ->
  for_of (before ++ entry :: after)%list (apply_override E this) h = Throw h2.
Proof.
  intros Hbefore Hentry. rewrite for_of_app. unfold bind at 1.
  rewrite Hbefore. cbn [for_of]. unfold bind. now rewrite Hentry.
Qed.

Lemma overrides_stop_at_first_failure_witness :
  exists h2,
    for_of [("a/b/c", VNum 2); ("x/y/z", VNum 3); ("value", VNum 4)]
      (apply_override Sample.env 1)
      (setField (Sample.tree VUndef false []) 1 "child" (VRef 3))
    = Throw h2 /\
    getField h2 6 "c" = VNum 2 /\
    getField h2 3 "value" = VStr "default".
Proof.
  set (h := setField (Sample.tree VUndef false []) 1 "child" (VRef 3)).
  exists (setField h 6 "c" (VNum 2)).
  split; [|split; vm_compute; reflexivity].
  exact (overrides_stop_at_first_failure Sample.env 1
           [("a/b/c", VNum 2)] [("value", VNum 4)] ("x/y/z", VNum 3)
           h (setField h 6 "c" (VNum 2)) (setField h 6 "c" (VNum 2))
           eq_refl eq_refl).
Defined.



(** ** Creating the child *)

Lemma createChild_transfers (E : Externals) (this : loc)
  (v : value) (t c : loc) (entries : list (string * value))
  (h h1 h2 h4 h5 : heap) :
  well_behaved E this ->
  allocated this h ->
  getField h this "cachedValue" = v ->
  truthy v = true ->
  call_resolveRef E this (getField h this "target") h = Ret (VRef t) h1 ->
  call_clone E t this h1 = Ret c h2 ->
  Object_entries (setField h2 this "child" (VRef c))
    (getField (setField h2 this "child" (VRef c)) this "overrides")
    = Some entries ->
  Forall spares_link entries ->
  for_of entries (apply_override E this) (setField h2 this "child" (VRef c))
    = Ret tt h4 ->
  call_setValue E c v h4 = Ret tt h5 ->
  createChild E this h = Ret tt (setField h5 this "cachedValue" VUndef) /\
  getField (setField h5 this "cachedValue" VUndef) this "child" = VRef c /\
  getField (setField h5 this "cachedValue" VUndef) this "cachedValue"
    = VUndef.
Proof.
  intros WB Ha Hv Ht Hresolve Hclone Hentries Hspare Hloop Hset.
  destruct (wb_resolveRef _ _ WB _ _ h _ h1 Ha Hresolve) as [Ha1 Hown1].
  destruct (wb_clone _ _ WB _ _ h1 _ h2 Ha1 Hclone) as [Ha2 Hown2].
  set (h3 := setField h2 this "child" (VRef c)) in *.
  assert (Ha3 : allocated this h3) by now apply lookup_setField_is_Some.
  destruct (overrides_keep_link E this WB entries Hspare h3 tt h4 Ha3 Hloop)
    as [Ha4 Hown4].
  destruct (wb_setValue _ _ WB c v h4 tt h5 Ha4 Hset) as [Ha5 Hown5].
  unfold own_fields in *.
  injection Hown1 as Hc1 Hv1. injection Hown2 as Hc2 Hv2.
  injection Hown4 as Hc4 Hv4. injection Hown5 as Hc5 Hv5.
  assert (Hchild4 : getField h4 this "child" = VRef c).
  { rewrite Hc4. apply getField_setField_eq. }
  assert (Hcache4 : getField h4 this "cachedValue" = v).
  { rewrite Hv4. unfold h3.
    rewrite getField_setField_ne by (right; discriminate). congruence. }
  split; [|split].
  - unfold createChild, clone_and_override. unfold_M.
    rewrite Hresolve. simpl. rewrite Hclone. fold h3. rewrite Hentries, Hloop.
    now apply use_cachedValue_truthy with (c := c) (v := v).
  - rewrite getField_setField_ne by (right; discriminate). congruence.
  - apply getField_setField_eq.
Qed.


(** X10.  With well-behaved surrounding classes and overrides that write neither
    [child] nor [cachedValue], [createChild()] on a link with a truthy cache
    installs the clone, applies the overrides, hands the cached value to the
    clone by [setValue] and ends with the clone as [child] and an
    [undefined] cache. *)
Theorem creation_hands_over_cache (E : Externals) (this : loc)
  (v : value) (t c : loc) (entries : list (string * value))
  (h h1 h2 h4 h5 : heap) :
  well_behaved E this ->
  allocated this h ->
  getField h this "cachedValue" = v ->
  truthy v = true ->
  call_resolveRef E this (getField h this "target") h = Ret (VRef t) h1 ->
  call_clone E t this h1 = Ret c h2 ->
  Object_entries (setField h2 this "child" (VRef c))
    (getField (setField h2 this "child" (VRef c)) this "overrides")
    = Some entries ->
  Forall spares_link entries ->
  for_of entries (apply_override E this) (setField h2 this "child" (VRef c))
    = Ret tt h4 ->
  call_setValue E c v h4 = Ret tt h5 ->
  createChild E this h = Ret tt (setField h5 this "cachedValue" VUndef) /\
  getField (setField h5 this "cachedValue" VUndef) this "child" = VRef c /\
  getField (setField h5 this "cachedValue" VUndef) this "cachedValue"
    = VUndef.
Proof. apply createChild_transfers. Qed.

Lemma creation_hands_over_cache_witness :
  exists h',
    createChild Sample.env 1
      (setField (Sample.tree (VBool true) false [("a/b/c", VNum 2)])
         1 "cachedValue" (VNum 7))
    = Ret tt h' /\
    getField h' 1 "child" = VRef 7 /\
    getField h' 1 "cachedValue" = VUndef /\
    getField h' 7 "value" = VNum 7.
Proof.
  set (h := setField (Sample.tree (VBool true) false [("a/b/c", VNum 2)])
              1 "cachedValue" (VNum 7)).
  set (h2 := match call_clone Sample.env 3 1 h with
             | Ret _ h2 => h2
             | Throw h2 => h2
             end).
  set (h4 := setField (setField h2 1 "child" (VRef 7)) 6 "c" (VNum 2)).
  set (h5 := setField h4 7 "value" (VNum 7)).
  assert (Hspare : Forall spares_link [("a/b/c", VNum 2)]).
  { constructor; [|constructor].
    split; intros H; vm_compute in H; discriminate H. }
  destruct (creation_hands_over_cache Sample.env 1 (VNum 7) 3 7
              [("a/b/c", VNum 2)] h h h2 h4 h5
              (sample_well_behaved 1)
              (ex_intro _ _ eq_refl) eq_refl eq_refl eq_refl eq_refl
              eq_refl Hspare eq_refl eq_refl)
    as (Hrun & Hchild & Hcache).
  exists (setField h5 1 "cachedValue" VUndef).
  split; [exact Hrun|]. split; [exact Hchild|]. split; [exact Hcache|].
  vm_compute. reflexivity.
Defined.

(** X11.  When the cache holds nothing truthy once the clone is made and the
    overrides are applied, [createChild()] stops there: the clone receives no
    [setValue], and a cached [0], [false], [''] or [null] stays in the
    cache. *)
Theorem creation_without_truthy_cache (E : Externals) (this : loc)
  (h h4 : heap) :
  clone_and_override E this h = Ret tt h4 ->
  truthy (getField h4 this "cachedValue") = false ->
  createChild E this h = Ret tt h4.
Proof.
  intros Hclone Hfalsy. unfold createChild, bind. rewrite Hclone.
  now apply use_cachedValue_falsy.
Qed.

Lemma creation_without_truthy_cache_witness :
  exists h4,
    createChild Sample.env 1
      (setField (Sample.tree (VBool true) false []) 1 "cachedValue" (VNum 0))
    = Ret tt h4 /\
    getField h4 1 "cachedValue" = VNum 0 /\
    getField h4 7 "value" = VStr "default".
Proof.
  set (h := setField (Sample.tree (VBool true) false []) 1 "cachedValue"
              (VNum 0)).
  set (h4 := match clone_and_override Sample.env 1 h with
             | Ret _ h4 => h4
             | Throw h4 => h4
             end).
  exists h4. split; [|split; vm_compute; reflexivity].
  apply (creation_without_truthy_cache Sample.env 1 h h4);
    vm_compute; reflexivity.
Defined.

(** ** Transitions that fail *)



(** X13.  A creation that fails in its first override is not made again.  The
    clone is installed before the overrides run, so [createChild()] throws
    with the clone as [child] and the cache as it was; the next
    [shouldDisplay()] that finds the field visible sees a child and only
    asks the base class, so a cached value is not handed over. *)
Theorem failed_creation_is_not_retried (E : Externals) (this : loc)
  (t c : loc) (field : string) (v : value) (rest : list (string * value))
  (h h1 h2 : heap) :
  call_resolveRef E this (getField h this "target") h = Ret (VRef t) h1 ->
  call_clone E t this h1 = Ret c h2 ->
  Object_entries (setField h2 this "child" (VRef c))
    (getField (setField h2 this "child" (VRef c)) this "overrides")
    = Some ((field, v) :: rest) ->
  includes ";" field = false ->
  resolveRawPath (setField h2 this "child" (VRef c)) (VRef c)
    (List.removelast (split "/" field)) = None ->
  createChild E this h = Throw (setField h2 this "child" (VRef c)) /\
  getField (setField h2 this "child" (VRef c)) this "child" = VRef c /\
  getField (setField h2 this "child" (VRef c)) this "cachedValue"
    = getField h2 this "cachedValue" /\
  (forall d h4,
     super_shouldDisplay E this (setField h2 this "child" (VRef c))
       = Ret d h4 ->
     truthy d = true ->
     getField h4 this "child" = VRef c ->
     shouldDisplay E this (setField h2 this "child" (VRef c)) = Ret d h4).
Proof.
  intros Hresolve Hclone Hentries Hsep Hpath.
  set (h3 := setField h2 this "child" (VRef c)) in *.
  assert (Hchild : getField h3 this "child" = VRef c)
    by apply getField_setField_eq.
  split; [|split; [exact Hchild | split]].
  - unfold createChild, clone_and_override. unfold_M.
    rewrite Hresolve. simpl. rewrite Hclone. fold h3. rewrite Hentries.
    cbn [for_of]. unfold bind.
    rewrite apply_override_plain by exact Hsep.
    now rewrite Hchild, Hpath.
  - unfold h3. now rewrite getField_setField_ne by (right; discriminate).
  - intros d h4 Hbase Hd Hc. apply shouldDisplay_settled; [exact Hbase|].
    now rewrite Hd, Hc.
Qed.

Lemma failed_creation_is_not_retried_witness :
  exists h3,
    shouldDisplay Sample.env 1
      (setField (Sample.tree (VBool true) false [("x/y/z", VNum 3)])
         1 "cachedValue" (VNum 7))
    = Throw h3 /\
    shouldDisplay Sample.env 1 h3 = Ret (VBool true) h3 /\
    getField h3 1 "cachedValue" = VNum 7 /\
    getValue Sample.env 1 h3 = Ret (VStr "default") h3.
Proof.
  set (h := setField (Sample.tree (VBool true) false [("x/y/z", VNum 3)])
              1 "cachedValue" (VNum 7)).
  set (h2 := match call_clone Sample.env 3 1 h with
             | Ret _ h2 => h2
             | Throw h2 => h2
             end).
  destruct (failed_creation_is_not_retried Sample.env 1 3 7 "x/y/z" (VNum 3)
              [] h h h2 eq_refl eq_refl eq_refl eq_refl eq_refl)
    as (_ & _ & _ & Hnext).
  exists (setField h2 1 "child" (VRef 7)).
  split; [vm_compute; reflexivity|].
  split; [|split; vm_compute; reflexivity].
  apply Hnext; vm_compute; reflexivity.
Defined.

(** ** The cache while there is no child *)

(** X14.  Round trip through the cache.  On a link without a child, [setValue(v)]
    followed by [getValue()] returns [v], for every [v], and [isEmpty()]
    after [setValue(v)] is [true] exactly when [v] is not truthy (so a cached
    [0] or [false] counts as empty); neither query changes the store. *)
Theorem absent_cache_round_trip (E : Externals) (this : loc) (v : value)
  (h h1 : heap) :
  call_onSetValue E this v h = Ret tt h1 ->
  truthy (getField h1 this "child") = false ->
  (do! setValue E this v in getValue E this) h
    = Ret v (setField h1 this "cachedValue" v) /\
  (do! setValue E this v in isEmpty E this) h
    = Ret (VBool (negb (truthy v))) (setField h1 this "cachedValue" v).
Proof.
  intros Hhook Hc.
  assert (Hc' : truthy (getField (setField h1 this "cachedValue" v)
                          this "child") = false).
  { now rewrite getField_setField_ne by (right; discriminate). }
  assert (Hset : setValue E this v h
                 = Ret tt (setField h1 this "cachedValue" v)).
  { unfold setValue. unfold_M. now rewrite Hhook, Hc. }
  split; unfold bind; rewrite Hset.
  - rewrite getValue_absent by exact Hc'. now rewrite getField_setField_eq.
  - unfold isEmpty. unfold_M. rewrite Hc'. simpl.
    now rewrite getField_setField_eq.
Qed.

Lemma absent_cache_round_trip_witness :
  (do! setValue Sample.env 1 (VNum 0) in getValue Sample.env 1)
    (Sample.tree VUndef false [])
  = Ret (VNum 0)
      (setField (Sample.tree VUndef false []) 1 "cachedValue" (VNum 0)) /\
  (do! setValue Sample.env 1 (VNum 0) in isEmpty Sample.env 1)
    (Sample.tree VUndef false [])
  = Ret (VBool true)
      (setField (Sample.tree VUndef false []) 1 "cachedValue" (VNum 0)).
Proof.
  exact (absent_cache_round_trip Sample.env 1 (VNum 0)
           (Sample.tree VUndef false []) (Sample.tree VUndef false [])
           eq_refl eq_refl).
Defined.

(** ** Which calls move the state machine *)

(** X15.  With well-behaved surrounding classes, only [shouldDisplay()] changes
    [child], and only [shouldDisplay()] and [setValue] change [cachedValue]:
    [init], [getValue], [isEmpty], [revalidate] and [resolvePath] leave both
    as they are, and [setValue] leaves [child] as it is. *)
Theorem only_visibility_moves_child (E : Externals) (this : loc)
  (o : op) (h h' : heap) (r : value) :
  well_behaved E this ->
  allocated this h ->
  run E this o h = Ret r h' ->
  o <> ShouldDisplay ->
  getField h' this "child" = getField h this "child" /\
  ((forall v, o <> SetValue v) ->
   getField h' this "cachedValue" = getField h this "cachedValue").
Proof.
  intros WB Ha Hrun Hop.
  assert (Hkeep : forall m : M value,
            keeps_link this m -> m h = Ret r h' ->
            getField h' this "child" = getField h this "child" /\
            ((forall v, o <> SetValue v) ->
             getField h' this "cachedValue" = getField h this "cachedValue")).
  { intros m Hm Hr. destruct (Hm h r h' Ha Hr) as [_ Hown].
    injection Hown as -> ->. now split. }
  destruct o as [id args|v| | |ec| |path]; simpl in Hrun.
  - exact (Hkeep _ (init_keeps_link E this WB id args) Hrun).
  - split; [|intros Hv; now destruct (Hv v)].
    unfold bind, ret in Hrun.
    destruct (setValue E this v h) as [[] h2|h2] eqn:Hset; [|discriminate].
    injection Hrun as _ <-.
    unfold setValue in Hset. unfold bind at 1 in Hset.
    destruct (call_onSetValue E this v h) as [[] h1|h1] eqn:Hhook;
      [|discriminate].
    destruct (wb_onSetValue _ _ WB v h tt h1 Ha Hhook) as [Ha1 Hown1].
    injection Hown1 as Hc1 _. rewrite <- Hc1.
    unfold_M. destruct (truthy (getField h1 this "child")); simpl in Hset.
    + assert (Hk : keeps_link this
                (invoke (getField h1 this "child")
                   (fun c => call_setValue E c v))).
      { apply keeps_link_invoke. intros l. apply (wb_setValue _ _ WB). }
      destruct (Hk h1 tt h2 Ha1 Hset) as [_ Hown].
      now injection Hown as -> _.
    + injection Hset as <-.
      now rewrite getField_setField_ne by (right; discriminate).
  - exact (Hkeep _ (getValue_keeps_link E this WB) Hrun).
  - exact (Hkeep _ (isEmpty_keeps_link E this WB) Hrun).
  - exact (Hkeep _ (revalidate_keeps_link E this WB ec) Hrun).
  - now destruct Hop.
  - exact (Hkeep _ (resolvePath_keeps_link E this WB path) Hrun).
Qed.

Lemma only_visibility_moves_child_witness :
  exists h',
    run Sample.env 1 (Revalidate VUndef)
      (setField (Sample.tree VUndef false []) 1 "cachedValue" (VNum 7))
    = Ret (VRef 7) h' /\
    getField h' 1 "child" = VUndef /\
    getField h' 1 "cachedValue" = VNum 7.
Proof.
  set (h := setField (Sample.tree VUndef false []) 1 "cachedValue" (VNum 7)).
  set (h' := match run Sample.env 1 (Revalidate VUndef) h with
             | Ret _ h' => h'
             | Throw h' => h'
             end).
  assert (Hrun : run Sample.env 1 (Revalidate VUndef) h = Ret (VRef 7) h')
    by (vm_compute; reflexivity).
  destruct (only_visibility_moves_child Sample.env 1 (Revalidate VUndef)
              h h' (VRef 7) (sample_well_behaved 1)
              (ex_intro _ _ eq_refl) Hrun)
    as [Hchild Hcache]; [discriminate|].
  exists h'. split; [exact Hrun|]. split.
  - rewrite Hchild. vm_compute. reflexivity.
  - rewrite Hcache by discriminate. vm_compute. reflexivity.
Defined.

(** ** Initialisation *)

(** X16.  [init(id, args)] with an object as [args] stores [args.target], or
    ['#'] when that is not truthy, then [args.overrides], or an empty object
    of its own when that is not truthy (a new object, so two links never
    share their default overrides), and ends with [super.init], which gets
    [''] for an [undefined] id. *)
Theorem init_stores_arguments (E : Externals) (this : loc)
  (id : value) (a : loc) (h : heap) :
  let id' := if is_undef id then VStr "" else id in
  let h1 := setField h this "target"
              (if truthy (getField h a "target") then getField h a "target"
               else VStr "#") in
  (truthy (getField h1 a "overrides") = true ->
   init E this id (VRef a) h =
   super_init E this id' (VRef a)
     (setField h1 this "overrides" (getField h1 a "overrides"))) /\
  (truthy (getField h1 a "overrides") = false ->
   exists l,
     h1 !! l = None /\
     init E this id (VRef a) h =
     super_init E this id' (VRef a)
       (setField (<[l := []]> h1) this "overrides" (VRef l)) /\
     getField (setField (<[l := []]> h1) this "overrides" (VRef l))
       this "overrides" = VRef l /\
     props (setField (<[l := []]> h1) this "overrides" (VRef l)) l = []).
Proof.
  intros id' h1. split.
  - intros Ho. unfold init. unfold_M. simpl. unfold js_or. fold h1.
    now rewrite Ho.
  - intros Ho. exists (fresh (dom h1)).
    assert (Hnew : h1 !! fresh (dom h1) = None)
      by apply not_elem_of_dom, is_fresh.
    assert (Hne : this <> fresh (dom h1)).
    { intros Heq. rewrite <- Heq in Hnew. unfold h1, setField in Hnew.
      now rewrite lookup_insert_eq in Hnew. }
    split; [exact Hnew|]. split; [|split].
    + unfold init. unfold_M. simpl. unfold js_or. fold h1.
      now rewrite Ho.
    + apply getField_setField_eq.
    + rewrite props_setField_ne by exact Hne.
      unfold props. now rewrite lookup_insert_eq.
Qed.

Lemma init_stores_arguments_witness :
  exists l,
    Sample.tree VUndef false [] !! l = None /\
    init Sample.env 1 VUndef (VRef 2) (Sample.tree VUndef false [])
    = Ret (VRef 1)
        (setField
           (setField
              (<[l := []]>
                 (setField (Sample.tree VUndef false []) 1 "target"
                    (VStr "#")))
              1 "overrides" (VRef l))
           1 "id" (VStr "")).
Proof.
  destruct (proj2 (init_stores_arguments Sample.env 1 VUndef 2
                     (Sample.tree VUndef false [])) eq_refl)
    as (l & Hnew & Hrun & _).
  exists l. split.
  - unfold setField in Hnew.
    destruct (decide (1 = l)) as [<-|Hne].
    + now rewrite lookup_insert_eq in Hnew.
    + now rewrite lookup_insert_ne in Hnew.
  - rewrite Hrun. reflexivity.
Defined.

(** X17.  [init] on the edge: [null] as [args] is a TypeError before anything is
    written; [undefined] as [args] stands for an empty object, so the target
    is ['#'] and the overrides are empty. *)
Theorem init_without_arguments (E : Externals) (this : loc)
  (id : value) (h : heap) :
  allocated this h ->
  init E this id VNull h = Throw h /\
  exists a o h',
    init E this id VUndef h =
    super_init E this (if is_undef id then VStr "" else id) (VRef a) h' /\
    h !! a = None /\ h !! o = None /\ a <> o /\
    props h' a = [] /\ props h' o = [] /\
    getField h' this "target" = VStr "#" /\
    getField h' this "overrides" = VRef o /\
    (forall l k, l <> this -> l <> a -> l <> o ->
       getField h' l k = getField h l k).
Proof.
  intros Ha. split; [reflexivity|].
  set (a := fresh (dom h)).
  set (h1 := <[a := []]> h).
  set (h2 := setField h1 this "target" (VStr "#")).
  set (o := fresh (dom h2)).
  set (h3 := <[o := []]> h2).
  exists a, o, (setField h3 this "overrides" (VRef o)).
  assert (Hnew_a : h !! a = None) by apply not_elem_of_dom, is_fresh.
  assert (Hnew_o : h2 !! o = None) by apply not_elem_of_dom, is_fresh.
  assert (Hthis_a : this <> a).
  { intros Heq. destruct Ha as [x Hx]. rewrite Heq in Hx. congruence. }
  assert (Hthis_o : this <> o).
  { intros Heq. rewrite <- Heq in Hnew_o. unfold h2, setField in Hnew_o.
    now rewrite lookup_insert_eq in Hnew_o. }
  assert (Hao : a <> o).
  { intros Heq. rewrite <- Heq in Hnew_o. unfold h2, setField in Hnew_o.
    rewrite lookup_insert_ne in Hnew_o by exact Hthis_a.
    unfold h1 in Hnew_o. now rewrite lookup_insert_eq in Hnew_o. }
  assert (Hprops_a : props h1 a = [])
    by (unfold props, h1; now rewrite lookup_insert_eq).
  assert (Hget : forall l k, l <> this -> l <> a -> l <> o ->
            getField (setField h3 this "overrides" (VRef o)) l k
            = getField h l k).
  { intros l k Hl Hla Hlo.
    rewrite getField_setField_ne by (left; congruence).
    unfold getField, props, h3. rewrite lookup_insert_ne by congruence.
    fold (props h2 l). unfold h2. rewrite props_setField_ne by congruence.
    unfold props, h1. now rewrite lookup_insert_ne by congruence. }
  split; [|split; [exact Hnew_a | split; [|split; [exact Hao|]]]].
  - assert (Ht : getField h1 a "target" = VUndef)
      by (unfold getField; now rewrite Hprops_a).
    assert (Ho : getField h2 a "overrides" = VUndef).
    { unfold getField, h2. rewrite props_setField_ne by exact Hthis_a.
      now rewrite Hprops_a. }
    unfold init. unfold_M. simpl. unfold alloc. fold a h1.
    rewrite Ht. unfold js_or. simpl. fold h2. rewrite Ho. simpl.
    fold o h3. reflexivity.
  - unfold h2, setField in Hnew_o.
    rewrite lookup_insert_ne in Hnew_o by exact Hthis_o.
    unfold h1 in Hnew_o.
    now rewrite lookup_insert_ne in Hnew_o by exact Hao.
  - split; [|split; [|split; [|split; [|exact Hget]]]].
    + rewrite props_setField_ne by exact Hthis_a.
      unfold props, h3. rewrite lookup_insert_ne by congruence.
      fold (props h2 a). unfold h2.
      now rewrite props_setField_ne by exact Hthis_a.
    + rewrite props_setField_ne by exact Hthis_o.
      unfold props, h3. now rewrite lookup_insert_eq.
    + rewrite getField_setField_ne by (right; discriminate).
      unfold getField, props, h3. rewrite lookup_insert_ne by congruence.
      fold (props h2 this). fold (getField h2 this "target").
      apply getField_setField_eq.
    + apply getField_setField_eq.
Qed.

Lemma init_without_arguments_witness :
  init Sample.env 1 (VStr "x") VNull (Sample.tree VUndef false [])
  = Throw (Sample.tree VUndef false []).
Proof.
  exact (proj1 (init_without_arguments Sample.env 1 (VStr "x")
                  (Sample.tree VUndef false []) (ex_intro _ _ eq_refl))).
Defined.

(** ** Validation through nested links *)

Lemma bind_Ret_inv {A B} (m : M A) (k : A -> M B) h r h' :
  bind m k h = Ret r h' ->
  exists a h1, m h = Ret a h1 /\ k a h1 = Ret r h'.
Proof.
  unfold bind. destruct (m h) as [a h1|h1]; [eauto | discriminate].
Qed.

Lemma revalidate_result_own (E : Externals) (this : loc)
  (errorCollection r : value) (h h' : heap) :
  revalidate E this errorCollection h = Ret r h' ->
  exists lv, r = VRef lv /\ hasOwn h' r "childrenValid" = Some true.
Proof.
  intros Hrun. unfold revalidate in Hrun.
  apply bind_Ret_inv in Hrun as (validation & h1 & _ & Hrun).
  apply bind_Ret_inv in Hrun as (child & h2 & _ & Hrun).
  apply bind_Ret_inv in Hrun as ([] & h3 & _ & Hrun).
  apply bind_Ret_inv in Hrun as (vchild & h4 & _ & Hrun).
  apply bind_Ret_inv in Hrun as (own & h5 & _ & Hrun).
  apply bind_Ret_inv in Hrun as (flag & h6 & _ & Hrun).
  apply bind_Ret_inv in Hrun as ([] & h7 & Hset & Hrun).
  injection Hrun as <- <-.
  destruct validation; try discriminate Hset.
  injection Hset as <-. eexists. split; [reflexivity|]. simpl.
  now rewrite props_setField_eq, assoc_obj_set_eq.
Qed.

(** X18.  Whenever [revalidate] returns, the result is an object that has a
    [childrenValid] of its own. *)
Theorem revalidate_reports_childrenValid (E : Externals) (this : loc)
  (errorCollection r : value) (h h' : heap) :
  revalidate E this errorCollection h = Ret r h' ->
  exists lv, r = VRef lv /\ hasOwn h' r "childrenValid" = Some true.
Proof. apply revalidate_result_own. Qed.

Lemma revalidate_reports_childrenValid_witness :
  exists h',
    revalidate Sample.env 1 VUndef (Sample.tree VUndef false [])
    = Ret (VRef 7) h' /\
    hasOwn h' (VRef 7) "childrenValid" = Some true.
Proof.
  set (h := Sample.tree VUndef false []).
  set (h' := match revalidate Sample.env 1 VUndef h with
             | Ret _ h' => h'
             | Throw h' => h'
             end).
  assert (Hrun : revalidate Sample.env 1 VUndef h = Ret (VRef 7) h')
    by (vm_compute; reflexivity).
  destruct (revalidate_reports_childrenValid Sample.env 1 VUndef (VRef 7)
              h h' Hrun) as (lv & _ & Hown).
  exists h'. split; [exact Hrun | exact Hown].
Defined.

Lemma revalidate_with_child (E : Externals) (this : loc)
  (errorCollection : value) (h h1 h2 : heap) (lv c : loc) (r flag : value) :
  super_revalidate E this errorCollection h = Ret (VRef lv) h1 ->
  getField h1 this "child" = VRef c ->
  call_revalidate E c errorCollection h1 = Ret r h2 ->
  derived_childrenValid h2 r = Some flag ->
  revalidate E this errorCollection h =
  Ret (VRef lv) (setField (setField h2 lv "child" r) lv "childrenValid" flag).
Proof.
  intros Hbase Hc Hr Hflag.
  destruct (revalidate_attach h2 lv r flag Hflag) as (Hrun & _ & _).
  unfold revalidate. unfold bind at 1. rewrite Hbase.
  unfold bind at 1. unfold get_this at 1, read at 1. rewrite Hc. simpl.
  unfold bind at 1. unfold bind at 1. rewrite Hr.
  exact Hrun.
Qed.

(** X19.  Validity passes through nested links.  When the child of a link is
    itself a lazy link (over surrounding classes [E'] of its own), the
    [childrenValid] of the outer result is the [childrenValid] of the inner
    result (never its [valid]), so the flag of the innermost field comes up
    through any number of links. *)
Theorem nested_link_validity (E E' : Externals) (this : loc)
  (errorCollection r : value) (h h1 h2 : heap) (lv c : loc) :
  super_revalidate E this errorCollection h = Ret (VRef lv) h1 ->
  getField h1 this "child" = VRef c ->
  call_revalidate E c errorCollection h1
    = revalidate E' c errorCollection h1 ->
  revalidate E' c errorCollection h1 = Ret r h2 ->
  exists lr h',
    r = VRef lr /\
    revalidate E this errorCollection h = Ret (VRef lv) h' /\
    getField h' lv "child" = VRef lr /\
    getField h' lv "childrenValid" = getField h2 lr "childrenValid".
Proof.
  intros Hbase Hc Hlink Hinner.
  destruct (revalidate_result_own E' c errorCollection r h1 h2 Hinner)
    as (lr & -> & Hown).
  assert (Hflag : derived_childrenValid h2 (VRef lr)
                  = Some (getField h2 lr "childrenValid")).
  { unfold derived_childrenValid. now rewrite Hown. }
  rewrite <- Hlink in Hinner.
  exists lr. eexists. split; [reflexivity|]. split; [|split].
  - exact (revalidate_with_child E this errorCollection h h1 h2 lv c _ _
             Hbase Hc Hinner Hflag).
  - rewrite getField_setField_ne by (right; discriminate).
    apply getField_setField_eq.
  - apply getField_setField_eq.
Qed.

Lemma nested_link_validity_witness :
  exists h',
    revalidate Nested.env 1 VUndef Nested.tree = Ret (VRef 9) h' /\
    getField h' 9 "childrenValid" = VBool false.
Proof.
  set (h1 := match super_revalidate Nested.env 1 VUndef Nested.tree with
             | Ret _ h1 => h1
             | Throw h1 => h1
             end).
  set (h2 := match revalidate Sample.env 3 VUndef h1 with
             | Ret _ h2 => h2
             | Throw h2 => h2
             end).
  assert (Hinner : revalidate Sample.env 3 VUndef h1 = Ret (VRef 10) h2)
    by (vm_compute; reflexivity).
  destruct (nested_link_validity Nested.env Sample.env 1 VUndef (VRef 10)
              Nested.tree h1 h2 9 3 eq_refl eq_refl eq_refl Hinner)
    as (lr & h' & Hr & Hrun & _ & Hflag).
  injection Hr as <-.
  exists h'. split; [exact Hrun|]. rewrite Hflag. vm_compute. reflexivity.
Defined.

(** ** The display key *)

(** X20.  [i18nPath] is the key of the target when the target resolves to an
    object and the key of the parent when the target does not resolve; a
    link whose target does not resolve and that has no parent throws, and a
    target that resolves to a truthy primitive gives [undefined]. *)
Theorem i18nPath_of_target_or_parent (E : Externals)
  (get_i18nPath : loc -> M value) (this : loc) (h h1 : heap) (r : value) :
  call_resolveRef E this (getField h this "target") h = Ret r h1 ->
  (forall t, r = VRef t ->
     i18nPath E get_i18nPath this h = get_i18nPath t h1) /\
  (truthy r = true -> (forall t, r <> VRef t) ->
     i18nPath E get_i18nPath this h = Ret VUndef h1) /\
  (truthy r = false ->
     (forall p, getField h1 this "parent" = VRef p ->
        i18nPath E get_i18nPath this h = get_i18nPath p h1) /\
     (getField h1 this "parent" = VUndef \/ getField h1 this "parent" = VNull ->
        i18nPath E get_i18nPath this h = Throw h1)).
Proof.
  intros Hresolve. unfold i18nPath. unfold_M. rewrite Hresolve.
  split; [|split].
  - intros t ->. reflexivity.
  - intros Ht Hprim. rewrite Ht. simpl.
    destruct r; try discriminate Ht; try reflexivity. now destruct (Hprim l).
  - intros ->. simpl. split.
    + intros p ->. reflexivity.
    + intros [-> | ->]; reflexivity.
Qed.

Lemma i18nPath_of_target_or_parent_witness :
  i18nPath Sample.env (fun l => read (fun h => getField h l "value")) 1
    (Sample.tree VUndef false [])
  = Ret (VStr "default") (Sample.tree VUndef false []) /\
  i18nPath Sample.env (fun l => read (fun h => getField h l "collapsed")) 1
    (setField (Sample.tree VUndef false []) 1 "target" (VStr "none"))
  = Ret (VBool false)
      (setField (Sample.tree VUndef false []) 1 "target" (VStr "none")).
Proof.
  split.
  - exact (proj1 (i18nPath_of_target_or_parent Sample.env
                    (fun l => read (fun h => getField h l "value")) 1
                    (Sample.tree VUndef false [])
                    (Sample.tree VUndef false []) (VRef 3) eq_refl)
             3 eq_refl).
  - exact (proj1 (proj2 (proj2 (i18nPath_of_target_or_parent Sample.env
                    (fun l => read (fun h => getField h l "collapsed")) 1
                    (setField (Sample.tree VUndef false []) 1 "target"
                       (VStr "none"))
                    (setField (Sample.tree VUndef false []) 1 "target"
                       (VStr "none"))
                    VUndef eq_refl)) eq_refl)
             2 eq_refl).
Defined.

(** ** Hiding and showing again *)

(** X21.  A truthy value survives a hide and show cycle.  With well-behaved
    surrounding classes: the [shouldDisplay()] that finds the field invisible
    captures the value [v] of the child and drops the child; after any change
    of the rest of the store that leaves the two fields of the link alone,
    the [shouldDisplay()] that finds the field visible again makes a new
    clone and, when the overrides spare the link, hands [v] to it by
    [setValue] and empties the cache. *)
Theorem value_survives_hide_and_show (E : Externals) (this : loc)
  (v d1 d2 : value) (c t c' : loc) (entries : list (string * value))
  (h0 h1 h2 h3 h4 h5 h6 h7 h8 : heap) :
  well_behaved E this ->
  allocated this h0 ->
  super_shouldDisplay E this h0 = Ret d1 h1 ->
  truthy d1 = false ->
  getField h1 this "child" = VRef c ->
  call_getValue E c h1 = Ret v h2 ->
  truthy v = true ->
  allocated this h3 ->
  own_fields this h3 =
    own_fields this
      (setField (setField h2 this "cachedValue" v) this "child" VUndef) ->
  super_shouldDisplay E this h3 = Ret d2 h4 ->
  truthy d2 = true ->
  truthy (isParentCollapsed this h4) = false ->
  call_resolveRef E this (getField h4 this "target") h4 = Ret (VRef t) h5 ->
  call_clone E t this h5 = Ret c' h6 ->
  Object_entries (setField h6 this "child" (VRef c'))
    (getField (setField h6 this "child" (VRef c')) this "overrides")
    = Some entries ->
  Forall spares_link entries ->
  for_of entries (apply_override E this) (setField h6 this "child" (VRef c'))
    = Ret tt h7 ->
  call_setValue E c' v h7 = Ret tt h8 ->
  shouldDisplay E this h0
    = Ret d1 (setField (setField h2 this "cachedValue" v) this "child" VUndef)
  /\
  shouldDisplay E this h3 = Ret d2 (setField h8 this "cachedValue" VUndef) /\
  getField (setField h8 this "cachedValue" VUndef) this "child" = VRef c' /\
  getField (setField h8 this "cachedValue" VUndef) this "cachedValue"
    = VUndef.
Proof.
  intros WB Ha0 Hbase1 Hd1 Hc1 Hget Hv Ha3 Hown3 Hbase2 Hd2 Hcol
         Hresolve Hclone Hentries Hspare Hloop Hset.
  destruct (wb_shouldDisplay _ _ WB h3 d2 h4 Ha3 Hbase2) as [Ha4 Hown4].
  unfold own_fields in Hown3, Hown4.
  rewrite getField_setField_eq in Hown3.
  rewrite getField_setField_ne in Hown3 by (right; discriminate).
  rewrite getField_setField_eq in Hown3.
  injection Hown3 as Hc3 Hv3. injection Hown4 as Hc4 Hv4.
  destruct (createChild_transfers E this v t c' entries h4 h5 h6 h7 h8
              WB Ha4 ltac:(congruence) Hv Hresolve Hclone Hentries Hspare
              Hloop Hset) as (Hcreate & Hchild & Hcache).
  split; [|split; [|split; [exact Hchild | exact Hcache]]].
  - unfold shouldDisplay, deleteChild. unfold_M.
    rewrite Hbase1, Hd1, Hc1. simpl. now rewrite Hget.
  - unfold shouldDisplay. unfold bind at 1. rewrite Hbase2, Hd2.
    unfold_M. rewrite Hc4, Hc3, Hcol. simpl. now rewrite Hcreate.
Qed.

Lemma value_survives_hide_and_show_witness :
  exists h3 h9,
    shouldDisplay Sample.env 1
      (setField
         (setField (Sample.tree (VBool false) false [("a/b/c", VNum 2)])
            3 "value" (VNum 7))
         1 "child" (VRef 3))
    = Ret (VBool false) h3 /\
    shouldDisplay Sample.env 1 (setField h3 1 "display" (VBool true))
    = Ret (VBool true) h9 /\
    getField h9 1 "child" = VRef 7 /\
    getField h9 7 "value" = VNum 7.
Proof.
  set (h0 := setField
               (setField (Sample.tree (VBool false) false [("a/b/c", VNum 2)])
                  3 "value" (VNum 7))
               1 "child" (VRef 3)).
  set (h3 := setField (setField h0 1 "cachedValue" (VNum 7))
               1 "child" VUndef).
  set (h3' := setField h3 1 "display" (VBool true)).
  set (h6 := match call_clone Sample.env 3 1 h3' with
             | Ret _ h6 => h6
             | Throw h6 => h6
             end).
  set (h7 := setField (setField h6 1 "child" (VRef 7)) 6 "c" (VNum 2)).
  set (h8 := setField h7 7 "value" (VNum 7)).
  assert (Hspare : Forall spares_link [("a/b/c", VNum 2)]).
  { constructor; [|constructor].
    split; intros H; vm_compute in H; discriminate H. }
  destruct (value_survives_hide_and_show Sample.env 1 (VNum 7)
              (VBool false) (VBool true) 3 3 7 [("a/b/c", VNum 2)]
              h0 h0 h0 h3' h3' h3' h6 h7 h8
              (sample_well_behaved 1) (ex_intro _ _ eq_refl)
              eq_refl eq_refl eq_refl eq_refl eq_refl
              (ex_intro _ _ eq_refl) eq_refl eq_refl eq_refl eq_refl
              eq_refl eq_refl eq_refl Hspare eq_refl eq_refl)
    as (Hhide & Hshow & Hchild & _).
  exists h3, (setField h8 1 "cachedValue" VUndef).
  split; [exact Hhide|]. split; [exact Hshow|]. split; [exact Hchild|].
  vm_compute. reflexivity.
Defined.

(** ** The store at work *)

(** [Object.entries] lists the array indices first, in ascending order;
    ["02"] is no array index. *)
Example entries_indices_first :
  own_entries [("b", VNum 1); ("10", VNum 2); ("2", VNum 3); ("a", VNum 4);
               ("02", VNum 5)]
  = [("2", VNum 3); ("10", VNum 2); ("b", VNum 1); ("a", VNum 4);
     ("02", VNum 5)].
Proof. vm_compute. reflexivity. Qed.

(** A string has its characters and its [length], which cannot be
    deleted. *)
Example string_properties :
  Object_entries ∅ (VStr "ab") = Some [("0", VStr "a"); ("1", VStr "b")] /\
  getProp ∅ (VStr "abc") "length" = Some (VNum 3) /\
  getProp ∅ (VStr "abc") "1" = Some (VStr "b") /\
  getProp ∅ (VStr "abc") "3" = Some VUndef /\
  delProp (VStr "ab") "length" ∅ = Throw ∅ /\
  delProp (VStr "ab") "x" ∅ = Ret tt ∅.
Proof. repeat split; vm_compute; reflexivity. Qed.

(** A string as [overrides] is enumerated by its characters, which the loop
    writes to the child. *)
Example overrides_given_as_string :
  exists h',
    shouldDisplay Sample.env 1
      (setField (Sample.tree (VBool true) false []) 1 "overrides" (VStr "ab"))
    = Ret (VBool true) h' /\
    getField h' 7 "0" = VStr "a" /\
    getField h' 7 "1" = VStr "b".
Proof. eexists. repeat split; vm_compute; reflexivity. Qed.
